(** * ViewContext: the view/transform pipeline of the 3D wireframe renderer

    A shallow embedding of [src/ViewContext.cpp].  The C++ class keeps its
    camera state in heap matrices and mutates them in place; here every
    member function is a function from the old [ViewContext] to the new one.
    The code computes with [double]; the embedding is written once, over an
    interface of scalar operations, and is read at two instances:

    - [R], exact real arithmetic, where the algebraic properties of the
      transform pair are stated and proved (rounding is idealised away, the
      code's constants are kept as written);
    - [float], Rocq's IEEE 754 binary64 numbers, where the code is run on
      concrete inputs and where infinities and not-a-number values exist. *)

From Stdlib Require Import List ZArith Lia Bool.
From Stdlib Require Import Reals Lra Machin.
From Stdlib Require Import Floats.
Import ListNotations.

(** ** Errors

    The spec's taxonomy has two errors.  [DimensionError] is what a matrix
    product signals on a shape mismatch; [DomainError] is never raised by
    [ViewContext.cpp] and is here so that the claims about it can be stated. *)

Inductive error : Type :=
| DimensionError
| DomainError.

Inductive result (A : Type) : Type :=
| Ok (a : A)
| Err (e : error).

Arguments Ok {A} a.
Arguments Err {A} e.

Definition bind {A B : Type} (r : result A) (f : A -> result B) : result B :=
  match r with
  | Ok a => f a
  | Err e => Err e
  end.

Notation "x <- c ;; k" := (bind c (fun x => k))
  (at level 61, c at next level, right associativity).

(** ** Scalars

    The operations [ViewContext.cpp] applies to a [double].  [of_int] is the
    conversion from [int] (also used for integer and exact decimal literals
    such as [1], [-1], [1.0] and [180.0]); [PI_macro] is
    [#define PI 3.14159265359]; [dpow2 x] is [std::pow(x, 2)]. *)

Class Scalar (T : Type) : Type := {
  of_int : Z -> T;
  PI_macro : T;
  dadd : T -> T -> T;
  dsub : T -> T -> T;
  dmul : T -> T -> T;
  ddiv : T -> T -> T;
  dneg : T -> T;
  dabs : T -> T;
  dsqrt : T -> T;
  dpow2 : T -> T
}.

(** [std::cos] and [std::sin]. *)
Class Libm (T : Type) : Type := {
  dcos : T -> T;
  dsin : T -> T
}.

Declare Scope dbl_scope.
Delimit Scope dbl_scope with dbl.
Notation "x + y" := (dadd x y) : dbl_scope.
Notation "x - y" := (dsub x y) : dbl_scope.
Notation "x * y" := (dmul x y) : dbl_scope.
Notation "x / y" := (ddiv x y) : dbl_scope.
Notation "- x" := (dneg x) : dbl_scope.

(** ** 32-bit [int]

    [translate] negates its [int] arguments before converting them.  An [int]
    is a [Z] in [int_min .. int_max]; negation wraps like the machine's. *)

Definition int_min : Z := - 2 ^ 31.
Definition int_max : Z := 2 ^ 31 - 1.

Definition int_wrap (z : Z) : Z := (z + 2 ^ 31) mod 2 ^ 32 - 2 ^ 31.

Definition int_neg (z : Z) : Z := int_wrap (- z).

(** ** The dense matrix primitive *)

Section Matrix.

Context {T : Type} `{Scalar T}.

(** Modelled from the spec: the [matrix] class ([matrix.h]) is not among
    the sources.  A matrix is the list of its rows. *)
Definition matrix : Type := list (list T).

(** Modelled from the spec: the constructor [matrix(r, c)], zero-filled. *)
Definition zeros (r c : nat) : matrix := repeat (repeat (of_int 0) c) r.

Definition nrows (m : matrix) : nat := length m.

Definition ncols (m : matrix) : nat :=
  match m with
  | [] => 0
  | row :: _ => length row
  end.

(** Modelled from the spec: the element access [m[i][j]], read.  Outside
    the matrix the model reads zero; [ViewContext.cpp] stays inside on the
    matrices it builds itself. *)
Definition mget (m : matrix) (i j : nat) : T :=
  nth j (nth i m []) (of_int 0).

Fixpoint list_set {A : Type} (l : list A) (n : nat) (v : A) : list A :=
  match l, n with
  | [], _ => []
  | _ :: t, O => v :: t
  | x :: t, S n' => x :: list_set t n' v
  end.

(** Modelled from the spec: the element access [m[i][j] = v], written.
    Outside the matrix the model writes nothing. *)
Definition mset (m : matrix) (i j : nat) (v : T) : matrix :=
  match nth_error m i with
  | Some row => list_set m i (list_set row j v)
  | None => m
  end.

(** Modelled from the spec: [clear()] zeroes every element and keeps the
    shape. *)
Definition clear (m : matrix) : matrix :=
  map (map (fun _ => of_int 0)) m.

(** Modelled from the spec: [matrix::identity(n)]. *)
Definition identity (n : nat) : matrix :=
  map (fun i => map (fun j => if Nat.eqb i j then of_int 1 else of_int 0)
                    (seq 0 n))
      (seq 0 n).

(** Modelled from the spec: entry (i, j) of a product accumulates
    [a[i][k] * b[k][j]] over k, from zero. *)
Definition dot_row_col (row : list T) (b : matrix) (j : nat) : T :=
  fold_left (fun acc k => (acc + nth k row (of_int 0) * mget b k j)%dbl)
            (seq 0 (length row)) (of_int 0).

Definition mmul_raw (a b : matrix) : matrix :=
  map (fun row => map (dot_row_col row b) (seq 0 (ncols b))) a.

(** Modelled from the spec: the product [a * b] makes a new matrix, and
    fails with a [DimensionError] when the inner dimensions differ. *)
Definition mmul (a b : matrix) : result matrix :=
  if Nat.eqb (ncols a) (nrows b) then Ok (mmul_raw a b)
  else Err DimensionError.

End Matrix.

Arguments matrix T : clear implicits.

Notation "m @[ i , j ]" := (mget m i j) (at level 1, format "m @[ i ,  j ]").

(** ** The pipeline state *)

Section Pipeline.

Context {T : Type} `{Scalar T}.

Local Open Scope dbl_scope.

(** The data members of [class ViewContext].  ([mi] and [li] are declared in
    the header and never used.) *)
Record ViewContext : Type := mkViewContext {
  toModelCoordinates : matrix T;
  toDeviceCoordinates : matrix T;
  changeBasisMatrix : matrix T;
  hOrbitMatrix : matrix T;
  vOrbitMatrix : matrix T;
  translateToOrigin : matrix T;
  translateFromOrigin : matrix T;
  p0 : matrix T;
  pref : matrix T;
  zf : T;
  hdeg : T;
  vdeg : T
}.

Definition set_toModelCoordinates (m : matrix T) (vc : ViewContext) : ViewContext :=
  mkViewContext m (toDeviceCoordinates vc) (changeBasisMatrix vc)
    (hOrbitMatrix vc) (vOrbitMatrix vc) (translateToOrigin vc)
    (translateFromOrigin vc) (p0 vc) (pref vc) (zf vc) (hdeg vc) (vdeg vc).

Definition set_toDeviceCoordinates (m : matrix T) (vc : ViewContext) : ViewContext :=
  mkViewContext (toModelCoordinates vc) m (changeBasisMatrix vc)
    (hOrbitMatrix vc) (vOrbitMatrix vc) (translateToOrigin vc)
    (translateFromOrigin vc) (p0 vc) (pref vc) (zf vc) (hdeg vc) (vdeg vc).

Definition set_changeBasisMatrix (m : matrix T) (vc : ViewContext) : ViewContext :=
  mkViewContext (toModelCoordinates vc) (toDeviceCoordinates vc) m
    (hOrbitMatrix vc) (vOrbitMatrix vc) (translateToOrigin vc)
    (translateFromOrigin vc) (p0 vc) (pref vc) (zf vc) (hdeg vc) (vdeg vc).

Definition set_hOrbitMatrix (m : matrix T) (vc : ViewContext) : ViewContext :=
  mkViewContext (toModelCoordinates vc) (toDeviceCoordinates vc)
    (changeBasisMatrix vc) m (vOrbitMatrix vc) (translateToOrigin vc)
    (translateFromOrigin vc) (p0 vc) (pref vc) (zf vc) (hdeg vc) (vdeg vc).

Definition set_vOrbitMatrix (m : matrix T) (vc : ViewContext) : ViewContext :=
  mkViewContext (toModelCoordinates vc) (toDeviceCoordinates vc)
    (changeBasisMatrix vc) (hOrbitMatrix vc) m (translateToOrigin vc)
    (translateFromOrigin vc) (p0 vc) (pref vc) (zf vc) (hdeg vc) (vdeg vc).

Definition set_translateToOrigin (m : matrix T) (vc : ViewContext) : ViewContext :=
  mkViewContext (toModelCoordinates vc) (toDeviceCoordinates vc)
    (changeBasisMatrix vc) (hOrbitMatrix vc) (vOrbitMatrix vc) m
    (translateFromOrigin vc) (p0 vc) (pref vc) (zf vc) (hdeg vc) (vdeg vc).

Definition set_translateFromOrigin (m : matrix T) (vc : ViewContext) : ViewContext :=
  mkViewContext (toModelCoordinates vc) (toDeviceCoordinates vc)
    (changeBasisMatrix vc) (hOrbitMatrix vc) (vOrbitMatrix vc)
    (translateToOrigin vc) m (p0 vc) (pref vc) (zf vc) (hdeg vc) (vdeg vc).

Definition set_zf (v : T) (vc : ViewContext) : ViewContext :=
  mkViewContext (toModelCoordinates vc) (toDeviceCoordinates vc)
    (changeBasisMatrix vc) (hOrbitMatrix vc) (vOrbitMatrix vc)
    (translateToOrigin vc) (translateFromOrigin vc) (p0 vc) (pref vc)
    v (hdeg vc) (vdeg vc).

Definition set_hdeg (v : T) (vc : ViewContext) : ViewContext :=
  mkViewContext (toModelCoordinates vc) (toDeviceCoordinates vc)
    (changeBasisMatrix vc) (hOrbitMatrix vc) (vOrbitMatrix vc)
    (translateToOrigin vc) (translateFromOrigin vc) (p0 vc) (pref vc)
    (zf vc) v (vdeg vc).

Definition set_vdeg (v : T) (vc : ViewContext) : ViewContext :=
  mkViewContext (toModelCoordinates vc) (toDeviceCoordinates vc)
    (changeBasisMatrix vc) (hOrbitMatrix vc) (vOrbitMatrix vc)
    (translateToOrigin vc) (translateFromOrigin vc) (p0 vc) (pref vc)
    (zf vc) (hdeg vc) v.

(** *** Private helpers on 3x1 matrices *)

Definition crossProduct3X1 (a b : matrix T) : matrix T :=
  let result := zeros 3 1 in
  let result := mset result 0 0 (a@[1, 0] * b@[2, 0] - a@[2, 0] * b@[1, 0]) in
  let result := mset result 1 0 (- (a@[0, 0] * b@[2, 0] - a@[2, 0] * b@[0, 0])) in
  let result := mset result 2 0 (a@[0, 0] * b@[1, 0] - a@[1, 0] * b@[0, 0]) in
  result.

Definition magnitude (a : matrix T) : T :=
  dsqrt (dpow2 a@[0, 0] + dpow2 a@[1, 0] + dpow2 a@[2, 0]).

Definition normalize (a : matrix T) : matrix T :=
  let norm := magnitude a in
  let result := zeros 3 1 in
  let result := mset result 0 0 (a@[0, 0] / norm) in
  let result := mset result 1 0 (a@[1, 0] / norm) in
  let result := mset result 2 0 (a@[2, 0] / norm) in
  result.

Definition dot (a b : matrix T) : T :=
  a@[0, 0] * b@[0, 0] + a@[1, 0] * b@[1, 0] + a@[2, 0] * b@[2, 0].

(** *** Construction *)

(** Four [clear()] calls, then the loop that writes 1.0 on the diagonal of
    the four matrices, row by row. *)
Definition resetTransformMatricies (vc : ViewContext) : ViewContext :=
  let vc := set_toModelCoordinates (clear (toModelCoordinates vc)) vc in
  let vc := set_toDeviceCoordinates (clear (toDeviceCoordinates vc)) vc in
  let vc := set_hOrbitMatrix (clear (hOrbitMatrix vc)) vc in
  let vc := set_vOrbitMatrix (clear (vOrbitMatrix vc)) vc in
  fold_left
    (fun vc i =>
       let vc := set_toModelCoordinates
                   (mset (toModelCoordinates vc) i i (of_int 1)) vc in
       let vc := set_toDeviceCoordinates
                   (mset (toDeviceCoordinates vc) i i (of_int 1)) vc in
       let vc := set_hOrbitMatrix (mset (hOrbitMatrix vc) i i (of_int 1)) vc in
       let vc := set_vOrbitMatrix (mset (vOrbitMatrix vc) i i (of_int 1)) vc in
       vc)
    (seq 0 4) vc.

Definition createTransformMatricies (vc : ViewContext) : ViewContext :=
  let vc := set_toModelCoordinates (zeros 4 4) vc in
  let vc := set_toDeviceCoordinates (zeros 4 4) vc in
  let vc := set_changeBasisMatrix (zeros 4 4) vc in
  let vc := set_translateToOrigin (zeros 4 4) vc in
  let vc := set_translateFromOrigin (zeros 4 4) vc in
  let vc := set_hOrbitMatrix (zeros 4 4) vc in
  let vc := set_vOrbitMatrix (zeros 4 4) vc in
  resetTransformMatricies vc.

(** The sixteen writes of [transformBasis] into [changeBasisMatrix], as a
    function of the matrix written to and of the eye [p0]. *)
Definition basis_entries (cb p : matrix T) : matrix T :=
  let N := zeros 3 1 in
  let V := zeros 3 1 in
  let N := mset N 0 0 p@[0, 0] in
  let N := mset N 1 0 p@[1, 0] in
  let N := mset N 2 0 p@[2, 0] in
  let V := mset V 1 0 (of_int 1) in
  let L := crossProduct3X1 V N in
  let l := normalize L in
  let n := normalize N in
  let m := crossProduct3X1 n l in
  let cb := mset cb 0 0 l@[0, 0] in
  let cb := mset cb 0 1 l@[1, 0] in
  let cb := mset cb 0 2 l@[2, 0] in
  let cb := mset cb 0 3 (of_int (-1) * dot l p) in
  let cb := mset cb 1 0 m@[0, 0] in
  let cb := mset cb 1 1 m@[1, 0] in
  let cb := mset cb 1 2 m@[2, 0] in
  let cb := mset cb 1 3 (of_int (-1) * dot m p) in
  let cb := mset cb 2 0 n@[0, 0] in
  let cb := mset cb 2 1 n@[1, 0] in
  let cb := mset cb 2 2 n@[2, 0] in
  let cb := mset cb 2 3 (of_int (-1) * dot n p) in
  let cb := mset cb 3 0 (of_int 0) in
  let cb := mset cb 3 1 (of_int 0) in
  let cb := mset cb 3 2 (of_int 0) in
  let cb := mset cb 3 3 (of_int 1) in
  cb.

Definition transformBasis (vc : ViewContext) : ViewContext :=
  set_changeBasisMatrix (basis_entries (changeBasisMatrix vc) (p0 vc)) vc.

Definition originToCenter (x y : T) (vc : ViewContext) : result ViewContext :=
  let tto := translateToOrigin vc in
  let tfo := translateFromOrigin vc in
  let tto := mset tto 0 3 (- x) in
  let tto := mset tto 1 3 (- y) in
  let tfo := mset tfo 0 3 x in
  let tfo := mset tfo 1 3 y in
  let (tfo, tto) :=
    fold_left (fun '(tfo, tto) i =>
                 (mset tfo i i (of_int 1), mset tto i i (of_int 1)))
              (seq 0 4) (tfo, tto) in
  let vc := set_translateToOrigin tto vc in
  let vc := set_translateFromOrigin tfo vc in
  d <- mmul (translateFromOrigin vc) (toDeviceCoordinates vc) ;;
  Ok (set_toDeviceCoordinates d vc).

(** The constructor [ViewContext(x0, y0, z0, x, y, zf)].  Before
    [createTransformMatricies] runs the seven matrix members are not yet
    allocated: they start as the empty matrix. *)
Definition new_ViewContext (x0 y0 z0 x y : Z) (zf0 : T) : result ViewContext :=
  let p := zeros 3 1 in
  let q := zeros 3 1 in
  let p := mset p 0 0 (of_int x0) in
  let q := mset q 0 0 (of_int 0) in
  let p := mset p 1 0 (of_int y0) in
  let q := mset q 1 0 (of_int 0) in
  let p := mset p 2 0 (of_int z0) in
  let q := mset q 2 0 (of_int 0) in
  let vc := mkViewContext [] [] [] [] [] [] [] p q zf0 (of_int 0) (of_int 0) in
  let vc := createTransformMatricies vc in
  let vc := transformBasis vc in
  originToCenter (of_int x) (of_int y) vc.

(** *** Conversions *)

Definition deviceToModel (vc : ViewContext) (shapeVerticies : matrix T)
  : result (matrix T) :=
  mmul (changeBasisMatrix vc) shapeVerticies.

(** [project] writes [a] in place: columns [i < 3], rows [j < 2]. *)
Definition project (vc : ViewContext) (a : matrix T) : matrix T :=
  fold_left
    (fun a i =>
       fold_left
         (fun a j =>
            mset a j i ((zf vc * a@[j, i]) / (dabs a@[2, i] + zf vc)))
         (seq 0 2) a)
    (seq 0 3) a.

Definition modelToDevice (vc : ViewContext) (shapeVerticies : matrix T)
  : result (matrix T) :=
  d <- mmul (hOrbitMatrix vc) shapeVerticies ;;
  d <- mmul (vOrbitMatrix vc) d ;;
  d <- mmul (changeBasisMatrix vc) d ;;
  let d := project vc d in
  mmul (toDeviceCoordinates vc) d.

(** *** Screen-space edits *)

(** The update shared by [scale], [rotate] and [translate]:
    [toDeviceCoordinates = translateFromOrigin * edit * translateToOrigin * toDeviceCoordinates]
    and then
    [toModelCoordinates = toModelCoordinates * translateFromOrigin * undo * translateToOrigin],
    each product chain associating to the left as in C++. *)
Definition apply_edit (edit undo : matrix T) (vc : ViewContext)
  : result ViewContext :=
  a <- mmul (translateFromOrigin vc) edit ;;
  a <- mmul a (translateToOrigin vc) ;;
  a <- mmul a (toDeviceCoordinates vc) ;;
  let vc := set_toDeviceCoordinates a vc in
  b <- mmul (toModelCoordinates vc) (translateFromOrigin vc) ;;
  b <- mmul b undo ;;
  b <- mmul b (translateToOrigin vc) ;;
  Ok (set_toModelCoordinates b vc).

Definition scale_matrix (a b : T) : matrix T :=
  let m := zeros 4 4 in
  let m := mset m 0 0 a in
  let m := mset m 1 1 b in
  let m := mset m 2 2 (of_int 1) in
  let m := mset m 3 3 (of_int 1) in
  m.

Definition scale (a b : T) (vc : ViewContext) : result ViewContext :=
  let scale := scale_matrix a b in
  let undoScale := scale_matrix (of_int 1 / a) (of_int 1 / b) in
  apply_edit scale undoScale vc.

Definition translate_matrix (x y : Z) : matrix T :=
  let m := identity 4 in
  let m := mset m 0 3 (of_int x) in
  let m := mset m 1 3 (of_int y) in
  m.

Definition translate (x y : Z) (vc : ViewContext) : result ViewContext :=
  let translate := translate_matrix x y in
  let undoTranslate := translate_matrix (int_neg x) (int_neg y) in
  apply_edit translate undoTranslate vc.

(** [reset]. *)
Definition reset (vc : ViewContext) : result ViewContext :=
  let vc := resetTransformMatricies vc in
  d <- mmul (translateFromOrigin vc) (toDeviceCoordinates vc) ;;
  Ok (set_toDeviceCoordinates d vc).

Definition adjustFOV (fov : T) (vc : ViewContext) : ViewContext :=
  set_zf (zf vc + fov) vc.

End Pipeline.

Arguments ViewContext T : clear implicits.

(** *** Rotation and orbiting: the members that call [std::cos], [std::sin] *)

Section Orbit.

Context {T : Type} `{Scalar T} `{Libm T}.

Local Open Scope dbl_scope.

(** The 4x4 matrix [rotate] and [vOrbit] fill in: a rotation of the x-y
    plane, about the z axis.  [rotate] starts from [matrix(4,4)] and sets the
    two remaining diagonal entries itself, [vOrbit] from [identity(4)]. *)
Definition rotate_matrix (theta : T) : matrix T :=
  let m := zeros 4 4 in
  let m := mset m 0 0 (dcos theta) in
  let m := mset m 0 1 (of_int (-1) * dsin theta) in
  let m := mset m 1 0 (dsin theta) in
  let m := mset m 1 1 (dcos theta) in
  let m := mset m 2 2 (of_int 1) in
  let m := mset m 3 3 (of_int 1) in
  m.

Definition rotate (theta_deg : T) (vc : ViewContext T) : result (ViewContext T) :=
  let theta := theta_deg * (PI_macro / of_int 180) in
  let rotate := rotate_matrix theta in
  let undoRotate := rotate_matrix (- theta) in
  apply_edit rotate undoRotate vc.

(** The matrix [hOrbit] builds from [identity(4)]: a rotation about the
    world vertical (y) axis. *)
Definition hOrbit_matrix (angle : T) : matrix T :=
  let rotate := identity 4 in
  let rotate := mset rotate 0 0 (dcos angle) in
  let rotate := mset rotate 0 2 (of_int 1 * dsin angle) in
  let rotate := mset rotate 2 0 (of_int (-1) * dsin angle) in
  let rotate := mset rotate 2 2 (of_int 1 * dcos angle) in
  rotate.

Definition hOrbit (degrees : T) (vc : ViewContext T) : ViewContext T :=
  let theta := degrees * (PI_macro / of_int 180) in
  let vc := set_hdeg (hdeg vc + theta) vc in
  set_hOrbitMatrix (hOrbit_matrix (hdeg vc)) vc.

(** The three local matrices of [vOrbit], as functions of the orbit axis
    and of the cumulative angle. *)
Definition axis_norm (axisOfRot : matrix T) : T :=
  dsqrt (dpow2 axisOfRot@[0, 0] + dpow2 axisOfRot@[2, 0]).

Definition rotateToZ_matrix (axisOfRot : matrix T) : matrix T :=
  let m := identity 4 in
  let m := mset m 0 0 (axisOfRot@[2, 0] / axis_norm axisOfRot) in
  let m := mset m 0 2 (of_int (-1) * axisOfRot@[0, 0] / axis_norm axisOfRot) in
  let m := mset m 2 0 (axisOfRot@[0, 0] / axis_norm axisOfRot) in
  let m := mset m 2 2 (axisOfRot@[2, 0] / axis_norm axisOfRot) in
  m.

Definition rotateFromZ_matrix (axisOfRot : matrix T) : matrix T :=
  let m := identity 4 in
  let m := mset m 0 0 (axisOfRot@[2, 0] / axis_norm axisOfRot) in
  let m := mset m 0 2 (axisOfRot@[0, 0] / axis_norm axisOfRot) in
  let m := mset m 2 0 (axisOfRot@[0, 0] / axis_norm axisOfRot) in
  let m := mset m 2 2 (of_int (-1) * axisOfRot@[2, 0] / axis_norm axisOfRot) in
  m.

Definition rotateZ_matrix (angle : T) : matrix T :=
  let m := identity 4 in
  let m := mset m 0 0 (dcos angle) in
  let m := mset m 0 1 (of_int (-1) * dsin angle) in
  let m := mset m 1 0 (dsin angle) in
  let m := mset m 1 1 (dcos angle) in
  m.

(** The axis [vOrbit] orbits about: the eye with its y component zeroed,
    crossed with the world vertical. *)
Definition orbit_axis (vc : ViewContext T) : matrix T :=
  let yToPo := zeros 3 1 in
  let yToPo := mset yToPo 0 0 (p0 vc)@[0, 0] in
  let yToPo := mset yToPo 1 0 (of_int 0) in
  let yToPo := mset yToPo 2 0 (p0 vc)@[2, 0] in
  let y := zeros 3 1 in
  let y := mset y 1 0 (of_int 1) in
  crossProduct3X1 yToPo y.

Definition vOrbit (degrees : T) (vc : ViewContext T) : result (ViewContext T) :=
  let theta := degrees * (PI_macro / of_int 180) in
  let vc := set_vdeg (vdeg vc + theta) vc in
  let axisOfRot := orbit_axis vc in
  let rotateToZ := rotateToZ_matrix axisOfRot in
  let rotateFromZ := rotateFromZ_matrix axisOfRot in
  let rotateZ := rotateZ_matrix (vdeg vc) in
  a <- mmul rotateToZ rotateZ ;;
  zOrbit <- mmul a rotateFromZ ;;
  Ok (set_vOrbitMatrix zOrbit vc).

End Orbit.

(** ** The two readings of [double] *)

(** Exact arithmetic.  [std::pow(x, 2)] is the square. *)
#[export] Instance RScalar : Scalar R := {|
  of_int := IZR;
  PI_macro := 3.14159265359%R;
  dadd := Rplus;
  dsub := Rminus;
  dmul := Rmult;
  ddiv := Rdiv;
  dneg := Ropp;
  dabs := Rabs;
  dsqrt := R_sqrt.sqrt;
  dpow2 := fun x => (x * x)%R
|}.

#[export] Instance RLibm : Libm R := {|
  dcos := Rtrigo_def.cos;
  dsin := Rtrigo_def.sin
|}.

(** IEEE 754 binary64.  An [int] converts exactly; [std::sqrt] is the
    correctly rounded square root; [std::pow(x, 2)] is taken as the rounded
    square [x * x], from which a math library's [pow] may differ in the
    last place when the square is not exact: no statement over binary64
    depends on its value at an argument other than 0, 50 and -50, whose
    squares are exact.  [std::cos] and [std::sin] are not fixed by any
    standard: a [Libm float] instance is a parameter wherever they occur. *)
Definition float_of_Z (z : Z) : float :=
  match z with
  | Z0 => PrimFloat.zero
  | Zpos _ => PrimFloat.of_uint63 (Uint63.of_Z z)
  | Zneg p => PrimFloat.opp (PrimFloat.of_uint63 (Uint63.of_Z (Zpos p)))
  end.

Set Warnings "-inexact-float".
#[export] Instance FloatScalar : Scalar float := {|
  of_int := float_of_Z;
  PI_macro := 3.14159265359%float;
  dadd := PrimFloat.add;
  dsub := PrimFloat.sub;
  dmul := PrimFloat.mul;
  ddiv := PrimFloat.div;
  dneg := PrimFloat.opp;
  dabs := PrimFloat.abs;
  dsqrt := PrimFloat.sqrt;
  dpow2 := fun x => PrimFloat.mul x x
|}.
Set Warnings "inexact-float".


(** ** Calls

    The input handler drives the pipeline by a sequence of mutator calls,
    one at a time.  A [call] is one such call with its arguments;
    [run_calls] runs a sequence, stopping at the first error. *)

Section Calls.

Context {T : Type} `{Scalar T} `{Libm T}.

Inductive call : Type :=
| Scale (a b : T)
| Rotate (theta_deg : T)
| Translate (x y : Z)
| HOrbit (degrees : T)
| VOrbit (degrees : T)
| Reset
| AdjustFOV (fov : T).

Definition run_call (c : call) (vc : ViewContext T) : result (ViewContext T) :=
  match c with
  | Scale a b => scale a b vc
  | Rotate d => rotate d vc
  | Translate x y => translate x y vc
  | HOrbit d => Ok (hOrbit d vc)
  | VOrbit d => vOrbit d vc
  | Reset => reset vc
  | AdjustFOV d => Ok (adjustFOV d vc)
  end.

Fixpoint run_calls (cs : list call) (vc : ViewContext T) : result (ViewContext T) :=
  match cs with
  | [] => Ok vc
  | c :: cs' => vc' <- run_call c vc ;; run_calls cs' vc'
  end.

End Calls.

Arguments call T : clear implicits.

(** ** Shapes *)

Section Shapes.

Context {T : Type} `{Scalar T}.

Definition has_shape (r c : nat) (m : matrix T) : bool :=
  Nat.eqb (length m) r && forallb (fun row => Nat.eqb (length row) c) m.

(** The seven matrix members are 4x4. *)
Definition wf (vc : ViewContext T) : bool :=
  has_shape 4 4 (toModelCoordinates vc) &&
  has_shape 4 4 (toDeviceCoordinates vc) &&
  has_shape 4 4 (changeBasisMatrix vc) &&
  has_shape 4 4 (hOrbitMatrix vc) &&
  has_shape 4 4 (vOrbitMatrix vc) &&
  has_shape 4 4 (translateToOrigin vc) &&
  has_shape 4 4 (translateFromOrigin vc).

(** A vertex batch: one homogeneous column per vertex of a triangle, as in
    [new matrix(4,3)]. *)
Definition is_batch (m : matrix T) : bool := has_shape 4 3 m.

(** Column [i] of a batch is the point (x, y, z). *)
Definition column_is (m : matrix T) (i : nat) (x y z w : T) : Prop :=
  m@[0, i] = x /\ m@[1, i] = y /\ m@[2, i] = z /\ m@[3, i] = w.

End Shapes.

(** The translation by (x, y) as [originToCenter] builds it. *)
Definition centering {T : Type} `{Scalar T} (x y : T) : matrix T :=
  [[of_int 1; of_int 0; of_int 0; x];
   [of_int 0; of_int 1; of_int 0; y];
   [of_int 0; of_int 0; of_int 1; of_int 0];
   [of_int 0; of_int 0; of_int 0; of_int 1]].

(** ** The event handler ([MyDrawing.cpp])

    The handler owns the pipeline, the state of the mouse and the point
    where the current drag started.  The image and the graphics context
    are outside the sources: of every handler the embedding keeps what it
    does to the pipeline and to the mouse state, and leaves out the
    drawing, the file access and the help text.  The two constants
    [orbitSensitivity] and [orbitAmount] come from [MyDrawing.h], which is
    not among the sources: they are parameters. *)

Inductive Mouse : Type :=
| RELEASED
| CLICKED.

Section Handler.

Context {T : Type} `{Scalar T} `{Libm T}.

Variable orbitSensitivity : Z.
Variable orbitAmount : T.

Record MyDrawing : Type := mkMyDrawing {
  md_vc : ViewContext T;
  md_mouseState : Mouse;
  md_x0 : Z;
  md_y0 : Z
}.

Definition set_md_vc (vc : ViewContext T) (md : MyDrawing) : MyDrawing :=
  mkMyDrawing vc (md_mouseState md) (md_x0 md) (md_y0 md).

Definition set_md_x0 (x : Z) (md : MyDrawing) : MyDrawing :=
  mkMyDrawing (md_vc md) (md_mouseState md) x (md_y0 md).

Definition set_md_y0 (y : Z) (md : MyDrawing) : MyDrawing :=
  mkMyDrawing (md_vc md) (md_mouseState md) (md_x0 md) y.

(** The constructor [MyDrawing(vc)]. *)
Definition new_MyDrawing (vc : ViewContext T) : MyDrawing :=
  mkMyDrawing vc RELEASED 0 0.

Definition mouseButtonDown (x y : Z) (md : MyDrawing) : MyDrawing :=
  mkMyDrawing (md_vc md) CLICKED x y.

Definition mouseButtonUp (md : MyDrawing) : MyDrawing :=
  mkMyDrawing (md_vc md) RELEASED (md_x0 md) (md_y0 md).

(** [mouseMove]: while the button is down, a horizontal move beyond the
    sensitivity orbits horizontally and restarts the drag in x, and a
    vertical one orbits vertically and restarts it in y. *)
Definition mouseMove (x y : Z) (md : MyDrawing) : result MyDrawing :=
  match md_mouseState md with
  | CLICKED =>
      let deltaX := int_wrap (x - md_x0 md) in
      let deltaY := int_wrap (y - md_y0 md) in
      let md :=
        if Z.ltb orbitSensitivity deltaX then
          set_md_x0 x (set_md_vc (hOrbit orbitAmount (md_vc md)) md)
        else if Z.ltb deltaX (int_neg orbitSensitivity) then
          set_md_x0 x (set_md_vc (hOrbit (dneg orbitAmount) (md_vc md)) md)
        else md in
      if Z.ltb orbitSensitivity deltaY then
        vc <- vOrbit orbitAmount (md_vc md) ;;
        Ok (set_md_y0 y (set_md_vc vc md))
      else if Z.ltb deltaY (int_neg orbitSensitivity) then
        vc <- vOrbit (dneg orbitAmount) (md_vc md) ;;
        Ok (set_md_y0 y (set_md_vc vc md))
      else Ok md
  | RELEASED => Ok md
  end.

(** The call [keyDown] makes on the pipeline, by key code: the four arrow
    keys, [=] and [-], [,] and [.], [r], [z] and [x].  The literal [0.5] is
    written as the quotient 1/2, which is exact in both readings.  The keys
    [l] and [L] load the image, every other key prints the help: no call. *)
Definition key_call (keycode : Z) : option (call T) :=
  match keycode with
  | 65361 => Some (Translate (-20) 0)
  | 65362 => Some (Translate 0 (-20))
  | 65363 => Some (Translate 20 0)
  | 65364 => Some (Translate 0 20)
  | 61 => Some (Scale (of_int 2) (of_int 2))
  | 45 => Some (Scale (ddiv (of_int 1) (of_int 2)) (ddiv (of_int 1) (of_int 2)))
  | 44 => Some (Rotate (of_int (-10)))
  | 46 => Some (Rotate (of_int 10))
  | 114 => Some Reset
  | 122 => Some (AdjustFOV (of_int 10))
  | 120 => Some (AdjustFOV (of_int (-10)))
  | _ => None
  end%Z.

Definition keyDown (keycode : Z) (md : MyDrawing) : result MyDrawing :=
  match key_call keycode with
  | Some c => vc <- run_call c (md_vc md) ;; Ok (set_md_vc vc md)
  | None => Ok md
  end.

(** The events the window delivers. *)
Inductive event : Type :=
| KeyDown (keycode : Z)
| MouseButtonDown (x y : Z)
| MouseButtonUp
| MouseMove (x y : Z).

Definition handle (e : event) (md : MyDrawing) : result MyDrawing :=
  match e with
  | KeyDown k => keyDown k md
  | MouseButtonDown x y => Ok (mouseButtonDown x y md)
  | MouseButtonUp => Ok (mouseButtonUp md)
  | MouseMove x y => mouseMove x y md
  end.

Fixpoint handle_all (es : list event) (md : MyDrawing) : result MyDrawing :=
  match es with
  | [] => Ok md
  | e :: es' => md' <- handle e md ;; handle_all es' md'
  end.

End Handler.

Arguments MyDrawing T : clear implicits.

(** ** Reachable states

    A state the program can be in: built by the constructor and then changed
    by mutator calls only. *)
Definition reachable {T : Type} `{Scalar T} `{Libm T} (vc : ViewContext T)
  : Prop :=
  exists (x0 y0 z0 x y : Z) (zf0 : T) (cs : list (call T)),
    (vc0 <- new_ViewContext x0 y0 z0 x y zf0 ;; run_calls cs vc0) = Ok vc.

(** ** Definitions used by the statements over the reals *)

(** An [int] whose negation is an [int] too. *)
Definition negatable (z : Z) : Prop := (int_min < z <= int_max)%Z.

(** The calls the exact reading covers: a scale has an inverse when both
    factors are non-zero, and a translate when [-x] and [-y] do not
    overflow. *)
Definition call_defined (c : call R) : Prop :=
  match c with
  | Scale a b => a <> 0%R /\ b <> 0%R
  | Translate x y => negatable x /\ negatable y
  | _ => True
  end.

(** The undo invariant the code keeps: the product of the inverse and the
    forward transform is the centering translation. *)
Definition undo_inv (cx cy : R) (vc : ViewContext R) : Prop :=
  wf vc = true /\
  translateFromOrigin vc = centering cx cy /\
  translateToOrigin vc = centering (- cx)%R (- cy)%R /\
  mmul_raw (toModelCoordinates vc) (toDeviceCoordinates vc) = centering cx cy.

(** Four [hOrbit(90)] calls in a row. *)
Definition four_hOrbit_90 (vc : ViewContext R) : ViewContext R :=
  hOrbit 90%R (hOrbit 90%R (hOrbit 90%R (hOrbit 90%R vc))).

(** The mirror image in the plane z = 0. *)
Definition mirror_z : matrix R :=
  [[1; 0; 0; 0]; [0; 1; 0; 0]; [0; 0; -1; 0]; [0; 0; 0; 1]]%R.

(** An eye that is not on the vertical through the target: the case in
    which the eye frame and the orbit axis are defined. *)
Definition eye_off_vertical (x0 z0 : Z) : Prop := (x0 <> 0 \/ z0 <> 0)%Z.

(** The distance from the eye to the target. *)
Definition eye_distance (x0 y0 z0 : Z) : R :=
  R_sqrt.sqrt (IZR x0 * IZR x0 + IZR y0 * IZR y0 + IZR z0 * IZR z0)%R.

(** Two keys that undo each other: left and right, up and down, [=] and
    [-], [,] and [.]. *)
Definition opposite_keys (k1 k2 : Z) : Prop :=
  In (k1, k2)
     [(65361, 65363); (65363, 65361); (65362, 65364); (65364, 65362);
      (61, 45); (45, 61); (44, 46); (46, 44)]%Z.

(** ** Definitions used by the statements over binary64 *)

Definition has_nan (m : matrix float) : bool :=
  existsb (existsb PrimFloat.is_nan) m.

Definition all_finite (m : matrix float) : bool :=
  forallb (forallb PrimFloat.is_finite) m.

(** What the spec asks of [vOrbit] on a degenerate axis: the call is
    rejected with a [DomainError], or it is clamped, so that the orbit
    matrix it leaves holds finite numbers only. *)
Definition guards_degenerate_axis `{Libm float}
  (degrees : float) (vc : ViewContext float) : Prop :=
  vOrbit degrees vc = Err DomainError \/
  exists vc', vOrbit degrees vc = Ok vc' /\ all_finite (vOrbitMatrix vc') = true.

(** The first axis triangle [MyDrawing::loadFromFile] adds to the image,
    with vertices (0,0,0), (100,0,0) and (0,0,0), as a vertex batch. *)
Definition axis_triangle : matrix float :=
  [[0; 100; 0]; [0; 0; 0]; [0; 0; 0]; [1; 1; 1]]%float.

(** The state [main] constructs: [ViewContext(50, 50, 0, 400, 400, 1000)],
    evaluated in binary64. *)
Definition main_vc : ViewContext float :=
  Eval vm_compute in
    match new_ViewContext 50 50 0 400 400 1000%float with
    | Ok vc => vc
    | Err _ => mkViewContext [] [] [] [] [] [] [] [] [] 0%float 0%float 0%float
    end.

(** * Properties that hold for every reading of [double] *)

Section Generic.

Context {T : Type} `{Scalar T}.

Lemma length_4_inv (A : Type) (l : list A) :
  length l = 4 -> exists a b c d, l = [a; b; c; d].
Proof.
  destruct l as [|a [|b [|c [|d [|e l]]]]]; simpl; try discriminate.
  intros _. now exists a, b, c, d.
Qed.

Lemma length_3_inv (A : Type) (l : list A) :
  length l = 3 -> exists a b c, l = [a; b; c].
Proof.
  destruct l as [|a [|b [|c [|d l]]]]; simpl; try discriminate.
  intros _. now exists a, b, c.
Qed.

Lemma has_shape_rows (r c : nat) (m : matrix T) :
  has_shape r c m = true ->
  length m = r /\ Forall (fun row => length row = c) m.
Proof.
  unfold has_shape. intros Hs.
  apply andb_true_iff in Hs. destruct Hs as [Hr Hc].
  apply Nat.eqb_eq in Hr. split; [exact Hr|].
  apply Forall_forall. intros row Hin.
  rewrite forallb_forall in Hc. apply Nat.eqb_eq. now apply Hc.
Qed.

Lemma has_shape_4_4_inv (m : matrix T) :
  has_shape 4 4 m = true ->
  exists a00 a01 a02 a03 a10 a11 a12 a13 a20 a21 a22 a23 a30 a31 a32 a33,
    m = [[a00; a01; a02; a03]; [a10; a11; a12; a13];
         [a20; a21; a22; a23]; [a30; a31; a32; a33]].
Proof.
  intros Hs. apply has_shape_rows in Hs. destruct Hs as [Hr Hc].
  apply length_4_inv in Hr. destruct Hr as (r0 & r1 & r2 & r3 & ->).
  repeat match goal with
         | Hf : Forall _ (_ :: _) |- _ =>
             let Hh := fresh "Hh" in
             let Ht := fresh "Ht" in
             apply Forall_cons_iff in Hf; destruct Hf as [Hh Ht];
             apply length_4_inv in Hh; destruct Hh as (? & ? & ? & ? & ->)
         end.
  repeat eexists.
Qed.

Lemma has_shape_4_3_inv (m : matrix T) :
  has_shape 4 3 m = true ->
  exists a00 a01 a02 a10 a11 a12 a20 a21 a22 a30 a31 a32,
    m = [[a00; a01; a02]; [a10; a11; a12];
         [a20; a21; a22]; [a30; a31; a32]].
Proof.
  intros Hs. apply has_shape_rows in Hs. destruct Hs as [Hr Hc].
  apply length_4_inv in Hr. destruct Hr as (r0 & r1 & r2 & r3 & ->).
  repeat match goal with
         | Hf : Forall _ (_ :: _) |- _ =>
             let Hh := fresh "Hh" in
             let Ht := fresh "Ht" in
             apply Forall_cons_iff in Hf; destruct Hf as [Hh Ht];
             apply length_3_inv in Hh; destruct Hh as (? & ? & ? & ->)
         end.
  repeat eexists.
Qed.

End Generic.

(** [explicit44 Hs] replaces a matrix known to be 4x4 by its sixteen
    entries; [explicit43] does the same for a vertex batch. *)
Ltac explicit44 Hs :=
  apply has_shape_4_4_inv in Hs;
  destruct Hs as (? & ? & ? & ? & ? & ? & ? & ? & ? & ? & ? & ? & ? & ? & ? & ? & ->).

Ltac explicit43 Hs :=
  apply has_shape_4_3_inv in Hs;
  destruct Hs as (? & ? & ? & ? & ? & ? & ? & ? & ? & ? & ? & ? & ->).

Section GenericPipeline.

Context {T : Type} `{Scalar T}.

Lemma mmul_4_4 (a b : matrix T) :
  has_shape 4 4 a = true -> has_shape 4 4 b = true ->
  mmul a b = Ok (mmul_raw a b) /\ has_shape 4 4 (mmul_raw a b) = true.
Proof.
  intros Ha Hb. explicit44 Ha. explicit44 Hb. split; reflexivity.
Qed.

Lemma mmul_4_3 (a b : matrix T) :
  has_shape 4 4 a = true -> has_shape 4 3 b = true ->
  mmul a b = Ok (mmul_raw a b) /\ has_shape 4 3 (mmul_raw a b) = true.
Proof.
  intros Ha Hb. explicit44 Ha. explicit43 Hb. split; reflexivity.
Qed.

Lemma wf_fields (vc : ViewContext T) :
  wf vc = true ->
  has_shape 4 4 (toModelCoordinates vc) = true /\
  has_shape 4 4 (toDeviceCoordinates vc) = true /\
  has_shape 4 4 (changeBasisMatrix vc) = true /\
  has_shape 4 4 (hOrbitMatrix vc) = true /\
  has_shape 4 4 (vOrbitMatrix vc) = true /\
  has_shape 4 4 (translateToOrigin vc) = true /\
  has_shape 4 4 (translateFromOrigin vc) = true.
Proof.
  unfold wf. intros Hw.
  do 6 (apply andb_true_iff in Hw; destruct Hw as [Hw ?]).
  repeat split; assumption.
Qed.

Lemma wf_intro (vc : ViewContext T) :
  has_shape 4 4 (toModelCoordinates vc) = true ->
  has_shape 4 4 (toDeviceCoordinates vc) = true ->
  has_shape 4 4 (changeBasisMatrix vc) = true ->
  has_shape 4 4 (hOrbitMatrix vc) = true ->
  has_shape 4 4 (vOrbitMatrix vc) = true ->
  has_shape 4 4 (translateToOrigin vc) = true ->
  has_shape 4 4 (translateFromOrigin vc) = true ->
  wf vc = true.
Proof.
  unfold wf. intros -> -> -> -> -> -> ->. reflexivity.
Qed.

(** [apply_edit] on a well-formed state never fails, and computes the two
    product chains. *)
Lemma apply_edit_ok (edit undo : matrix T) (vc : ViewContext T) :
  wf vc = true ->
  has_shape 4 4 edit = true -> has_shape 4 4 undo = true ->
  exists vc',
    apply_edit edit undo vc = Ok vc' /\
    wf vc' = true /\
    toDeviceCoordinates vc' =
      mmul_raw (mmul_raw (mmul_raw (translateFromOrigin vc) edit)
                         (translateToOrigin vc))
               (toDeviceCoordinates vc) /\
    toModelCoordinates vc' =
      mmul_raw (mmul_raw (mmul_raw (toModelCoordinates vc)
                                   (translateFromOrigin vc)) undo)
               (translateToOrigin vc) /\
    changeBasisMatrix vc' = changeBasisMatrix vc /\
    hOrbitMatrix vc' = hOrbitMatrix vc /\
    vOrbitMatrix vc' = vOrbitMatrix vc /\
    translateToOrigin vc' = translateToOrigin vc /\
    translateFromOrigin vc' = translateFromOrigin vc /\
    p0 vc' = p0 vc /\ pref vc' = pref vc /\
    zf vc' = zf vc /\ hdeg vc' = hdeg vc /\ vdeg vc' = vdeg vc.
Proof.
  intros Hw He Hu.
  destruct (wf_fields vc Hw) as (Hm & Hd & Hcb & Hh & Hv & Hto & Hfrom).
  destruct (mmul_4_4 _ _ Hfrom He) as [E1 S1].
  destruct (mmul_4_4 _ _ S1 Hto) as [E2 S2].
  destruct (mmul_4_4 _ _ S2 Hd) as [E3 S3].
  destruct (mmul_4_4 _ _ Hm Hfrom) as [E4 S4].
  destruct (mmul_4_4 _ _ S4 Hu) as [E5 S5].
  destruct (mmul_4_4 _ _ S5 Hto) as [E6 S6].
  eexists. unfold apply_edit.
  rewrite E1; cbn [bind]. rewrite E2; cbn [bind]. rewrite E3; cbn [bind].
  cbn [set_toDeviceCoordinates toModelCoordinates translateFromOrigin
       translateToOrigin].
  rewrite E4; cbn [bind]. rewrite E5; cbn [bind]. rewrite E6; cbn [bind].
  split; [reflexivity|].
  split; [apply wf_intro; assumption|].
  repeat split; reflexivity.
Qed.

End GenericPipeline.


(** ** What each member function leaves in the state *)

Section Frames.

Context {T : Type} `{Scalar T} `{Libm T}.

(** The constructor never fails; it leaves the identity in
    [toModelCoordinates] and in both orbit matrices, the centering pair in
    [translateFromOrigin] and [translateToOrigin], and the centering
    translation times the identity in [toDeviceCoordinates]. *)
Lemma new_ViewContext_ok (x0 y0 z0 x y : Z) (zf0 : T) :
  exists vc,
    new_ViewContext x0 y0 z0 x y zf0 = Ok vc /\
    wf vc = true /\
    toModelCoordinates vc = identity 4 /\
    toDeviceCoordinates vc =
      mmul_raw (centering (of_int x) (of_int y)) (identity 4) /\
    changeBasisMatrix vc =
      basis_entries (zeros 4 4) [[of_int x0]; [of_int y0]; [of_int z0]] /\
    hOrbitMatrix vc = identity 4 /\
    vOrbitMatrix vc = identity 4 /\
    translateFromOrigin vc = centering (of_int x) (of_int y) /\
    translateToOrigin vc =
      centering (dneg (of_int x)) (dneg (of_int y)) /\
    p0 vc = [[of_int x0]; [of_int y0]; [of_int z0]] /\
    zf vc = zf0 /\ hdeg vc = of_int 0 /\ vdeg vc = of_int 0.
Proof.
  eexists. split; [vm_compute; reflexivity|].
  repeat split; vm_compute; reflexivity.
Qed.

Lemma reset_ok (vc : ViewContext T) :
  wf vc = true ->
  exists vc',
    reset vc = Ok vc' /\
    wf vc' = true /\
    toModelCoordinates vc' = identity 4 /\
    toDeviceCoordinates vc' =
      mmul_raw (translateFromOrigin vc) (identity 4) /\
    hOrbitMatrix vc' = identity 4 /\
    vOrbitMatrix vc' = identity 4 /\
    changeBasisMatrix vc' = changeBasisMatrix vc /\
    translateToOrigin vc' = translateToOrigin vc /\
    translateFromOrigin vc' = translateFromOrigin vc /\
    p0 vc' = p0 vc /\ pref vc' = pref vc /\
    zf vc' = zf vc /\ hdeg vc' = hdeg vc /\ vdeg vc' = vdeg vc.
Proof.
  intros Hw.
  destruct (wf_fields vc Hw) as (Hm & Hd & Hcb & Hh & Hv & Hto & Hfrom).
  destruct vc as [m d cb h v tto tfo p q z hd vd].
  cbn [toModelCoordinates toDeviceCoordinates changeBasisMatrix hOrbitMatrix
       vOrbitMatrix translateToOrigin translateFromOrigin p0 pref zf hdeg
       vdeg] in *.
  explicit44 Hm. explicit44 Hd. explicit44 Hh. explicit44 Hv. explicit44 Hfrom.
  eexists. split; [vm_compute; reflexivity|].
  split; [apply wf_intro; try assumption; reflexivity|].
  repeat split.
Qed.

Lemma hOrbit_wf (degrees : T) (vc : ViewContext T) :
  wf vc = true -> wf (hOrbit degrees vc) = true.
Proof.
  intros Hw.
  destruct (wf_fields vc Hw) as (Hm & Hd & Hcb & Hh & Hv & Hto & Hfrom).
  apply wf_intro; try assumption. reflexivity.
Qed.

(** [vOrbit] multiplies three matrices it has just built from
    [identity(4)]: it cannot fail, whatever the state. *)
Lemma vOrbit_ok (degrees : T) (vc : ViewContext T) :
  exists vc',
    vOrbit degrees vc = Ok vc' /\
    vdeg vc' = dadd (vdeg vc) (dmul degrees (ddiv PI_macro (of_int 180))) /\
    vOrbitMatrix vc' =
      mmul_raw (mmul_raw (rotateToZ_matrix (orbit_axis vc))
                         (rotateZ_matrix (vdeg vc')))
               (rotateFromZ_matrix (orbit_axis vc)) /\
    toModelCoordinates vc' = toModelCoordinates vc /\
    toDeviceCoordinates vc' = toDeviceCoordinates vc /\
    changeBasisMatrix vc' = changeBasisMatrix vc /\
    hOrbitMatrix vc' = hOrbitMatrix vc /\
    translateToOrigin vc' = translateToOrigin vc /\
    translateFromOrigin vc' = translateFromOrigin vc /\
    p0 vc' = p0 vc /\ pref vc' = pref vc /\
    zf vc' = zf vc /\ hdeg vc' = hdeg vc.
Proof.
  set (vc1 := set_vdeg (dadd (vdeg vc)
                          (dmul degrees (ddiv PI_macro (of_int 180)))) vc).
  assert (S1 : has_shape 4 4 (rotateToZ_matrix (orbit_axis vc1)) = true)
    by reflexivity.
  assert (S2 : has_shape 4 4 (rotateZ_matrix (vdeg vc1)) = true)
    by reflexivity.
  assert (S3 : has_shape 4 4 (rotateFromZ_matrix (orbit_axis vc1)) = true)
    by reflexivity.
  destruct (mmul_4_4 _ _ S1 S2) as [E1 S12].
  destruct (mmul_4_4 _ _ S12 S3) as [E2 _].
  eexists. split.
  - unfold vOrbit. fold vc1. cbv zeta. rewrite E1. cbn [bind].
    rewrite E2. cbn [bind]. reflexivity.
  - repeat split.
Qed.

Lemma vOrbit_wf (degrees : T) (vc vc' : ViewContext T) :
  wf vc = true -> vOrbit degrees vc = Ok vc' -> wf vc' = true.
Proof.
  intros Hw Hv.
  destruct (wf_fields vc Hw) as (Hm & Hd & Hcb & Hh & Hvo & Hto & Hfrom).
  destruct (vOrbit_ok degrees vc)
    as (vc'' & E & _ & Ev & Em & Ed & Ecb & Eh & Eto & Efrom & _).
  rewrite E in Hv. injection Hv as <-.
  apply wf_intro; try congruence.
  rewrite Ev. reflexivity.
Qed.

(** Every call on a well-formed state returns, in a well-formed state with
    the same eye and the same centering pair. *)
Lemma run_call_ok (c : call T) (vc : ViewContext T) :
  wf vc = true ->
  exists vc',
    run_call c vc = Ok vc' /\
    wf vc' = true /\
    translateToOrigin vc' = translateToOrigin vc /\
    translateFromOrigin vc' = translateFromOrigin vc /\
    changeBasisMatrix vc' = changeBasisMatrix vc /\
    p0 vc' = p0 vc.
Proof.
  intros Hw. destruct c as [a b|d|x y|d|d| |d]; cbn [run_call].
  - destruct (apply_edit_ok (scale_matrix a b)
                (scale_matrix (ddiv (of_int 1) a) (ddiv (of_int 1) b)) vc Hw)
      as (vc' & E & Hw' & R); [reflexivity|reflexivity|].
    exists vc'. split; [exact E|]. split; [exact Hw'|]. tauto.
  - destruct (apply_edit_ok
                (rotate_matrix (dmul d (ddiv PI_macro (of_int 180))))
                (rotate_matrix (dneg (dmul d (ddiv PI_macro (of_int 180)))))
                vc Hw)
      as (vc' & E & Hw' & R); [reflexivity|reflexivity|].
    exists vc'. split; [exact E|]. split; [exact Hw'|]. tauto.
  - destruct (apply_edit_ok (translate_matrix x y)
                (translate_matrix (int_neg x) (int_neg y)) vc Hw)
      as (vc' & E & Hw' & R); [reflexivity|reflexivity|].
    exists vc'. split; [exact E|]. split; [exact Hw'|]. tauto.
  - exists (hOrbit d vc). repeat split. now apply hOrbit_wf.
  - destruct (vOrbit_ok d vc) as (vc' & E & R).
    exists vc'. split; [exact E|].
    split; [eapply vOrbit_wf; eassumption|]. tauto.
  - destruct (reset_ok vc Hw) as (vc' & E & Hw' & R).
    exists vc'. split; [exact E|]. split; [exact Hw'|]. tauto.
  - exists (adjustFOV d vc). repeat split. exact Hw.
Qed.

Lemma run_calls_ok (cs : list (call T)) (vc : ViewContext T) :
  wf vc = true ->
  exists vc',
    run_calls cs vc = Ok vc' /\
    wf vc' = true /\
    translateToOrigin vc' = translateToOrigin vc /\
    translateFromOrigin vc' = translateFromOrigin vc /\
    changeBasisMatrix vc' = changeBasisMatrix vc /\
    p0 vc' = p0 vc.
Proof.
  revert vc. induction cs as [|c cs IH]; intros vc Hw.
  - exists vc. repeat split. exact Hw.
  - destruct (run_call_ok c vc Hw) as (vc1 & E1 & Hw1 & Eto & Efrom & Ecb & Ep).
    destruct (IH vc1 Hw1) as (vc2 & E2 & Hw2 & Eto2 & Efrom2 & Ecb2 & Ep2).
    exists vc2. cbn [run_calls]. rewrite E1. cbn [bind].
    repeat split; congruence.
Qed.

End Frames.

(** * The claims that hold for every reading of [double] *)

Section GenericClaims.

Context {T : Type} `{Scalar T} `{Libm T}.

Lemma mmul_raw_shape (a b : matrix T) :
  has_shape 4 4 a = true -> has_shape 4 4 b = true ->
  has_shape 4 4 (mmul_raw a b) = true.
Proof.
  intros Ha Hb. now destruct (mmul_4_4 _ _ Ha Hb).
Qed.

(** Every reachable state is well formed. *)
Lemma reachable_wf (vc : ViewContext T) : reachable vc -> wf vc = true.
Proof.
  intros (x0 & y0 & z0 & x & y & zf0 & cs & E).
  destruct (new_ViewContext_ok x0 y0 z0 x y zf0) as (vc0 & E0 & Hw0 & _).
  rewrite E0 in E. cbn [bind] in E.
  destruct (run_calls_ok cs vc0 Hw0) as (vc1 & E1 & Hw1 & _).
  congruence.
Qed.

Lemma project_shape (vc : ViewContext T) (a : matrix T) :
  has_shape 4 3 a = true -> has_shape 4 3 (project vc a) = true.
Proof.
  intros Hb. explicit43 Hb. reflexivity.
Qed.

(** C3. On a vertex batch (four rows, one column per vertex of the
    triangle), [project] replaces the x and the y of every column by
    [zf * v / (|z| + zf)], [z] the depth of that column, and leaves the z
    row (and the homogeneous row) as it was. *)
Theorem project_divides_x_y_keeps_z
  (vc : ViewContext T) (a : matrix T) (i : nat) :
  is_batch a = true -> (i < 3)%nat ->
  (project vc a)@[0, i]
    = ddiv (dmul (zf vc) a@[0, i]) (dadd (dabs a@[2, i]) (zf vc)) /\
  (project vc a)@[1, i]
    = ddiv (dmul (zf vc) a@[1, i]) (dadd (dabs a@[2, i]) (zf vc)) /\
  (project vc a)@[2, i] = a@[2, i] /\
  (project vc a)@[3, i] = a@[3, i] /\
  is_batch (project vc a) = true.
Proof.
  intros Hb Hi. unfold is_batch in *. explicit43 Hb.
  destruct i as [|[|[|i]]]; try lia; repeat split.
Qed.

(** C4, as the code has it.  [scale] has no check of its factors: on every
    well-formed state and for all factors, zero included, it returns
    normally, with both transforms updated by the product chains; the
    inverse of a zero factor is whatever [1/0] is in the arithmetic. *)
Theorem scale_has_no_zero_check (a b : T) (vc : ViewContext T) :
  wf vc = true ->
  exists vc',
    scale a b vc = Ok vc' /\
    toDeviceCoordinates vc' =
      mmul_raw (mmul_raw (mmul_raw (translateFromOrigin vc) (scale_matrix a b))
                         (translateToOrigin vc))
               (toDeviceCoordinates vc) /\
    toModelCoordinates vc' =
      mmul_raw (mmul_raw (mmul_raw (toModelCoordinates vc)
                                   (translateFromOrigin vc))
                         (scale_matrix (ddiv (of_int 1) a) (ddiv (of_int 1) b)))
               (translateToOrigin vc).
Proof.
  intros Hw.
  destruct (apply_edit_ok (scale_matrix a b)
              (scale_matrix (ddiv (of_int 1) a) (ddiv (of_int 1) b)) vc Hw)
    as (vc' & E & _ & Ed & Em & _); [reflexivity|reflexivity|].
  exists vc'. auto.
Qed.

(** C9. On a well-formed state [reset] returns; it leaves the identity in
    the inverse transform and in both orbit matrices, the centering
    translation applied to the identity in the forward transform, and the
    cumulative angles [hdeg] and [vdeg] untouched. *)
Theorem reset_keeps_orbit_angles (vc : ViewContext T) :
  wf vc = true ->
  exists vc',
    reset vc = Ok vc' /\
    toModelCoordinates vc' = identity 4 /\
    hOrbitMatrix vc' = identity 4 /\
    vOrbitMatrix vc' = identity 4 /\
    toDeviceCoordinates vc' =
      mmul_raw (translateFromOrigin vc) (identity 4) /\
    hdeg vc' = hdeg vc /\
    vdeg vc' = vdeg vc.
Proof.
  intros Hw. destruct (reset_ok vc Hw) as (vc' & E & _ & R).
  exists vc'. tauto.
Qed.

(** C10. [hOrbit], [vOrbit] and [adjustFOV] return on every state and leave
    [toDeviceCoordinates] and [toModelCoordinates] as they were. *)
Theorem orbit_and_fov_keep_edit_pair (degrees fov : T) (vc : ViewContext T) :
  (toDeviceCoordinates (hOrbit degrees vc) = toDeviceCoordinates vc /\
   toModelCoordinates (hOrbit degrees vc) = toModelCoordinates vc) /\
  (exists vc',
     vOrbit degrees vc = Ok vc' /\
     toDeviceCoordinates vc' = toDeviceCoordinates vc /\
     toModelCoordinates vc' = toModelCoordinates vc) /\
  (toDeviceCoordinates (adjustFOV fov vc) = toDeviceCoordinates vc /\
   toModelCoordinates (adjustFOV fov vc) = toModelCoordinates vc).
Proof.
  split; [split; reflexivity|]. split; [|split; reflexivity].
  destruct (vOrbit_ok degrees vc) as (vc' & E & _ & _ & Em & Ed & _).
  exists vc'. auto.
Qed.

End GenericClaims.

(** * The binary64 reading: the code run on concrete inputs *)

Section Binary64.

Local Open Scope float_scope.

Lemma main_vc_constructed :
  new_ViewContext 50 50 0 400 400 1000 = Ok main_vc.
Proof. vm_compute. reflexivity. Qed.

Lemma main_vc_wf : wf main_vc = true.
Proof. vm_compute. reflexivity. Qed.

(** A triangle in the eye frame with a vertex behind the target, at depth
    -1000: with [zf] = 1000 its x = 100 and y = 50 are divided by two, and
    its depth is kept. *)
Lemma project_vertex_at_depth_1000 :
  is_batch ([[100; 100; -30]; [50; 0; 40]; [-1000; 0; 250]; [1; 1; 1]]
            : matrix float) = true /\
  (0 < 3)%nat /\
  (project main_vc
     [[100; 100; -30]; [50; 0; 40]; [-1000; 0; 250]; [1; 1; 1]])@[0, 0] = 50 /\
  (project main_vc
     [[100; 100; -30]; [50; 0; 40]; [-1000; 0; 250]; [1; 1; 1]])@[1, 0] = 25 /\
  (project main_vc
     [[100; 100; -30]; [50; 0; 40]; [-1000; 0; 250]; [1; 1; 1]])@[2, 0]
  = -1000 /\
  (project main_vc
     [[100; 100; -30]; [50; 0; 40]; [-1000; 0; 250]; [1; 1; 1]])@[3, 0] = 1 /\
  is_batch
    (project main_vc
       [[100; 100; -30]; [50; 0; 40]; [-1000; 0; 250]; [1; 1; 1]]) = true.
Proof.
  assert (Hb : is_batch
                 ([[100; 100; -30]; [50; 0; 40]; [-1000; 0; 250]; [1; 1; 1]]
                  : matrix float) = true) by reflexivity.
  assert (Hi : (0 < 3)%nat) by lia.
  split; [exact Hb|]. split; [exact Hi|].
  pose proof (project_divides_x_y_keeps_z main_vc
                [[100; 100; -30]; [50; 0; 40]; [-1000; 0; 250]; [1; 1; 1]]
                0 Hb Hi) as P.
  vm_compute in P. vm_compute. exact P.
Defined.

(** [scale(0, 1)] on the state [main] constructs: no error is raised, the
    forward transform has changed (its first column is now zero), and the
    inverse transform holds not-a-number values. *)
Lemma scale_zero_changes_state :
  exists vc',
    scale 0 1 main_vc = Ok vc' /\
    toDeviceCoordinates vc' <> toDeviceCoordinates main_vc /\
    has_nan (toModelCoordinates vc') = true.
Proof.
  eexists. split; [vm_compute; reflexivity|]. split.
  - intros E.
    apply (f_equal (fun m : matrix float => PrimFloat.eqb m@[0, 0] 1)) in E.
    vm_compute in E. discriminate E.
  - vm_compute. reflexivity.
Qed.

Lemma scale_zero_returns :
  wf main_vc = true /\
  exists vc',
    scale 0 1 main_vc = Ok vc' /\
    toDeviceCoordinates vc' =
      mmul_raw (mmul_raw (mmul_raw (translateFromOrigin main_vc)
                                   (scale_matrix 0 1))
                         (translateToOrigin main_vc))
               (toDeviceCoordinates main_vc) /\
    toModelCoordinates vc' =
      mmul_raw (mmul_raw (mmul_raw (toModelCoordinates main_vc)
                                   (translateFromOrigin main_vc))
                         (scale_matrix (ddiv (of_int 1) 0)
                                       (ddiv (of_int 1) 1)))
               (translateToOrigin main_vc).
Proof.
  exact (conj main_vc_wf (scale_has_no_zero_check 0 1 main_vc main_vc_wf)).
Defined.

End Binary64.

(** * The exact reading: [double] as a real number *)

(** [eval_R] unfolds the matrix code and the scalar interface at [R], down
    to sums and products of reals, and no further. *)
Ltac eval_R :=
  cbv [mmul_raw dot_row_col mget mset list_set nth nth_error map seq fold_left
       length ncols nrows zeros repeat identity Nat.eqb clear
       centering scale_matrix rotate_matrix translate_matrix hOrbit_matrix
       rotateToZ_matrix rotateFromZ_matrix rotateZ_matrix axis_norm
       crossProduct3X1 normalize magnitude dot orbit_axis basis_entries
       mirror_z
       dadd dsub dmul ddiv dneg dabs dsqrt dpow2 of_int PI_macro dcos dsin
       RScalar RLibm].

Ltac eval_R_in H :=
  cbv [mmul_raw dot_row_col mget mset list_set nth nth_error map seq fold_left
       length ncols nrows zeros repeat identity Nat.eqb clear
       centering scale_matrix rotate_matrix translate_matrix hOrbit_matrix
       rotateToZ_matrix rotateFromZ_matrix rotateZ_matrix axis_norm
       crossProduct3X1 normalize magnitude dot orbit_axis basis_entries
       mirror_z
       dadd dsub dmul ddiv dneg dabs dsqrt dpow2 of_int PI_macro dcos dsin
       RScalar RLibm] in H.

(** Shapes of products of 4x4 matrices. *)
Ltac shape44 :=
  repeat first [ assumption | apply mmul_raw_shape | reflexivity ].

Section RealAlgebra.

Local Open Scope R_scope.

Lemma mmul_raw_assoc (a b c : matrix R) :
  has_shape 4 4 a = true -> has_shape 4 4 b = true ->
  has_shape 4 4 c = true ->
  mmul_raw (mmul_raw a b) c = mmul_raw a (mmul_raw b c).
Proof.
  intros Ha Hb Hc. explicit44 Ha. explicit44 Hb. explicit44 Hc.
  eval_R. repeat (f_equal; try ring).
Qed.

Lemma mmul_raw_id_l (a : matrix R) :
  has_shape 4 4 a = true -> mmul_raw (identity 4) a = a.
Proof.
  intros Ha. explicit44 Ha. eval_R. repeat (f_equal; try ring).
Qed.

Lemma mmul_raw_id_r (a : matrix R) :
  has_shape 4 4 a = true -> mmul_raw a (identity 4) = a.
Proof.
  intros Ha. explicit44 Ha. eval_R. repeat (f_equal; try ring).
Qed.

(** The centering pair, the scale pair, the rotate pair and the translate
    pair each multiply to the identity. *)
Lemma centering_to_from (x y : R) :
  mmul_raw (centering (- x) (- y)) (centering x y) = identity 4.
Proof. eval_R. repeat (f_equal; try ring). Qed.

Lemma centering_from_to (x y : R) :
  mmul_raw (centering x y) (centering (- x) (- y)) = identity 4.
Proof. eval_R. repeat (f_equal; try ring). Qed.

Lemma scale_cancel (a b : R) :
  a <> 0 -> b <> 0 ->
  mmul_raw (scale_matrix (1 / a) (1 / b)) (scale_matrix a b) = identity 4.
Proof.
  intros Ha Hb. eval_R. repeat (f_equal; try (field; assumption)).
Qed.

Lemma rotate_cancel (t : R) :
  mmul_raw (rotate_matrix (- t)) (rotate_matrix t) = identity 4.
Proof.
  eval_R. rewrite cos_neg, sin_neg.
  pose proof (sin2_cos2 t) as E. unfold Rsqr in E.
  repeat (f_equal; try ring); ring_simplify; lra.
Qed.

Lemma int_neg_negatable (z : Z) : negatable z -> int_neg z = (- z)%Z.
Proof.
  unfold negatable, int_neg, int_wrap, int_min, int_max. intros Hz.
  rewrite Z.mod_small by lia. lia.
Qed.

Lemma translate_cancel (x y : Z) :
  negatable x -> negatable y ->
  mmul_raw (translate_matrix (int_neg x) (int_neg y)) (translate_matrix x y)
  = (identity 4 : matrix R).
Proof.
  intros Hx Hy. rewrite (int_neg_negatable x Hx), (int_neg_negatable y Hy).
  eval_R. rewrite !opp_IZR. repeat (f_equal; try ring).
Qed.

Lemma cancel_left (a b z : matrix R) :
  has_shape 4 4 a = true -> has_shape 4 4 b = true ->
  has_shape 4 4 z = true ->
  mmul_raw a b = identity 4 ->
  mmul_raw a (mmul_raw b z) = z.
Proof.
  intros Ha Hb Hz E.
  rewrite <- mmul_raw_assoc by assumption.
  rewrite E. now apply mmul_raw_id_l.
Qed.

(** The step of the undo pair: whatever the edit, when [undo * edit] is the
    identity the product of the new inverse and the new forward transform is
    the product of the old ones. *)
Lemma edit_chain_product (inv fwd edit undo : matrix R) (cx cy : R) :
  has_shape 4 4 inv = true -> has_shape 4 4 fwd = true ->
  has_shape 4 4 edit = true -> has_shape 4 4 undo = true ->
  mmul_raw undo edit = identity 4 ->
  mmul_raw
    (mmul_raw (mmul_raw (mmul_raw inv (centering cx cy)) undo)
              (centering (- cx) (- cy)))
    (mmul_raw (mmul_raw (mmul_raw (centering cx cy) edit)
                        (centering (- cx) (- cy)))
              fwd)
  = mmul_raw inv fwd.
Proof.
  intros Hi Hf He Hu E.
  rewrite !mmul_raw_assoc by shape44.
  rewrite (cancel_left (centering (- cx) (- cy)) (centering cx cy))
    by (shape44 || apply centering_to_from).
  rewrite (cancel_left undo edit) by shape44.
  rewrite (cancel_left (centering cx cy) (centering (- cx) (- cy)))
    by (shape44 || apply centering_from_to).
  reflexivity.
Qed.

(** Two edits in a row whose matrices multiply to the identity restore the
    forward transform. *)
Lemma edit_then_inverse_edit (fwd e1 e2 : matrix R) (cx cy : R) :
  has_shape 4 4 fwd = true ->
  has_shape 4 4 e1 = true -> has_shape 4 4 e2 = true ->
  mmul_raw e2 e1 = identity 4 ->
  mmul_raw (mmul_raw (mmul_raw (centering cx cy) e2)
                     (centering (- cx) (- cy)))
           (mmul_raw (mmul_raw (mmul_raw (centering cx cy) e1)
                               (centering (- cx) (- cy)))
                     fwd)
  = fwd.
Proof.
  intros Hf H1 H2 E.
  rewrite !mmul_raw_assoc by shape44.
  rewrite (cancel_left (centering (- cx) (- cy)) (centering cx cy))
    by (shape44 || apply centering_to_from).
  rewrite (cancel_left e2 e1) by shape44.
  rewrite (cancel_left (centering cx cy) (centering (- cx) (- cy)))
    by (shape44 || apply centering_from_to).
  reflexivity.
Qed.

End RealAlgebra.

(** ** The undo pair *)

Section UndoPair.

Local Open Scope R_scope.

Lemma apply_edit_undo_inv (edit undo : matrix R) (cx cy : R)
  (vc : ViewContext R) :
  undo_inv cx cy vc ->
  has_shape 4 4 edit = true -> has_shape 4 4 undo = true ->
  mmul_raw undo edit = identity 4 ->
  exists vc', apply_edit edit undo vc = Ok vc' /\ undo_inv cx cy vc'.
Proof.
  intros (Hw & Hfrom & Hto & Hp) He Hu E.
  destruct (apply_edit_ok edit undo vc Hw He Hu)
    as (vc' & Ea & Hw' & Ed & Em & _ & _ & _ & Eto & Efrom & _).
  destruct (wf_fields vc Hw) as (Hm & Hd & _).
  exists vc'. split; [exact Ea|].
  unfold undo_inv. rewrite Eto, Efrom. repeat split; try assumption.
  rewrite Ed, Em, Hfrom, Hto.
  rewrite edit_chain_product by assumption. exact Hp.
Qed.

Lemma run_call_undo_inv (c : call R) (cx cy : R) (vc : ViewContext R) :
  call_defined c -> undo_inv cx cy vc ->
  exists vc', run_call c vc = Ok vc' /\ undo_inv cx cy vc'.
Proof.
  intros Hc Hinv.
  destruct c as [a b|d|x y|d|d| |d]; cbn [run_call call_defined] in *.
  - destruct Hc as [Ha Hb].
    apply apply_edit_undo_inv; try assumption; try reflexivity.
    exact (scale_cancel a b Ha Hb).
  - apply apply_edit_undo_inv; try assumption; try reflexivity.
    apply rotate_cancel.
  - destruct Hc as [Hx Hy].
    apply apply_edit_undo_inv; try assumption; try reflexivity.
    exact (translate_cancel x y Hx Hy).
  - exists (hOrbit d vc). split; [reflexivity|].
    destruct Hinv as (Hw & Hfrom & Hto & Hp).
    repeat split; try assumption. now apply hOrbit_wf.
  - destruct Hinv as (Hw & Hfrom & Hto & Hp).
    destruct (vOrbit_ok d vc)
      as (vc' & E & _ & _ & Em & Ed & _ & _ & Eto & Efrom & _).
    exists vc'. split; [exact E|].
    unfold undo_inv. rewrite Em, Ed, Eto, Efrom.
    repeat split; try assumption. eapply vOrbit_wf; eassumption.
  - destruct Hinv as (Hw & Hfrom & Hto & Hp).
    destruct (reset_ok vc Hw)
      as (vc' & E & Hw' & Em & Ed & _ & _ & _ & Eto & Efrom & _).
    exists vc'. split; [exact E|].
    unfold undo_inv. rewrite Em, Ed, Eto, Efrom, Hfrom.
    repeat split; try assumption.
    rewrite mmul_raw_id_r by reflexivity.
    now rewrite mmul_raw_id_l by reflexivity.
  - exists (adjustFOV d vc). split; [reflexivity|]. exact Hinv.
Qed.

Lemma run_calls_undo_inv (cs : list (call R)) (cx cy : R)
  (vc : ViewContext R) :
  Forall call_defined cs -> undo_inv cx cy vc ->
  exists vc', run_calls cs vc = Ok vc' /\ undo_inv cx cy vc'.
Proof.
  revert vc. induction cs as [|c cs IH]; intros vc Hcs Hinv.
  - exists vc. split; [reflexivity|exact Hinv].
  - apply Forall_cons_iff in Hcs. destruct Hcs as [Hc Hcs].
    destruct (run_call_undo_inv c cx cy vc Hc Hinv) as (vc1 & E1 & Hinv1).
    destruct (IH vc1 Hcs Hinv1) as (vc2 & E2 & Hinv2).
    exists vc2. cbn [run_calls]. rewrite E1. cbn [bind]. auto.
Qed.

Lemma new_ViewContext_undo_inv (x0 y0 z0 x y : Z) (zf0 : R) :
  exists vc,
    new_ViewContext x0 y0 z0 x y zf0 = Ok vc /\
    undo_inv (IZR x) (IZR y) vc.
Proof.
  destruct (new_ViewContext_ok x0 y0 z0 x y zf0)
    as (vc & E & Hw & Em & Ed & _ & _ & _ & Efrom & Eto & _).
  exists vc. split; [exact E|].
  unfold undo_inv. rewrite Em, Ed, Efrom, Eto.
  repeat split; try assumption.
  rewrite mmul_raw_id_r by reflexivity.
  now rewrite mmul_raw_id_l by reflexivity.
Qed.

(** C1, as the code has it.  In exact arithmetic, after construction and
    after every sequence of calls in which each scale has non-zero factors
    and each translate has arguments whose negation does not overflow, the
    product [toModelCoordinates * toDeviceCoordinates] is the centering
    translation [translateFromOrigin]: the inverse transform undoes every
    edit, and not the centering that the constructor and [reset] apply to
    the forward transform alone.  (A prefix of such a sequence is such a
    sequence: the statement covers the state after every call.) *)
Theorem undo_pair_product_is_centering
  (x0 y0 z0 x y : Z) (zf0 : R) (cs : list (call R)) :
  Forall call_defined cs ->
  exists vc,
    (vc0 <- new_ViewContext x0 y0 z0 x y zf0 ;; run_calls cs vc0) = Ok vc /\
    translateFromOrigin vc = centering (IZR x) (IZR y) /\
    mmul (toModelCoordinates vc) (toDeviceCoordinates vc)
    = Ok (centering (IZR x) (IZR y)).
Proof.
  intros Hcs.
  destruct (new_ViewContext_undo_inv x0 y0 z0 x y zf0) as (vc0 & E0 & Hinv0).
  destruct (run_calls_undo_inv cs (IZR x) (IZR y) vc0 Hcs Hinv0)
    as (vc & E & Hw & Hfrom & Hto & Hp).
  exists vc. rewrite E0. cbn [bind]. split; [exact E|].
  split; [exact Hfrom|].
  destruct (wf_fields vc Hw) as (Hm & Hd & _).
  destruct (mmul_4_4 _ _ Hm Hd) as [Em _].
  rewrite Em, Hp. reflexivity.
Qed.

(** The spec's end-to-end sequence: [scale(2, 2)], [rotate(90)],
    [translate(10, -10)] on the pipeline [main] constructs. *)
Lemma undo_pair_after_three_edits :
  Forall call_defined [Scale 2 2; Rotate 90; Translate 10 (-10)] /\
  exists vc,
    (vc0 <- new_ViewContext 50 50 0 400 400 1000 ;;
     run_calls [Scale 2 2; Rotate 90; Translate 10 (-10)] vc0) = Ok vc /\
    translateFromOrigin vc = centering 400 400 /\
    mmul (toModelCoordinates vc) (toDeviceCoordinates vc)
    = Ok (centering 400 400).
Proof.
  assert (Hcs : Forall call_defined
                  [Scale 2 2; Rotate 90; Translate 10 (-10)]).
  { repeat constructor; cbn; try lra;
      unfold negatable, int_min, int_max; lia. }
  split; [exact Hcs|].
  exact (undo_pair_product_is_centering 50 50 0 400 400 1000 _ Hcs).
Defined.

End UndoPair.

(** ** Claims about the exact reading *)

Section RealClaims.

Local Open Scope R_scope.

(** Every reachable state is well formed and holds a centering pair. *)
Lemma reachable_pivots (vc : ViewContext R) :
  reachable vc ->
  wf vc = true /\
  exists cx cy,
    translateFromOrigin vc = centering cx cy /\
    translateToOrigin vc = centering (- cx) (- cy).
Proof.
  intros (x0 & y0 & z0 & x & y & zf0 & cs & E).
  destruct (new_ViewContext_ok x0 y0 z0 x y zf0)
    as (vc0 & E0 & Hw0 & _ & _ & _ & _ & _ & Efrom & Eto & _).
  rewrite E0 in E. cbn [bind] in E.
  destruct (run_calls_ok cs vc0 Hw0) as (vc1 & E1 & Hw1 & Eto1 & Efrom1 & _).
  assert (vc1 = vc) by congruence. subst vc1.
  split; [exact Hw1|].
  exists (IZR x), (IZR y). rewrite Eto1, Efrom1. auto.
Qed.

(** The constructed state is reachable. *)
Lemma new_ViewContext_reachable
  (x0 y0 z0 x y : Z) (zf0 : R) (vc : ViewContext R) :
  new_ViewContext x0 y0 z0 x y zf0 = Ok vc -> reachable vc.
Proof.
  intros E. exists x0, y0, z0, x, y, zf0, []. rewrite E. reflexivity.
Qed.

(** C1, as stated, fails twice over.  Right after construction with screen
    center (400, 400) the product of the inverse and the forward transform
    is the centering translation, not the identity; and after [scale(0, 1)]
    it is not even that. *)
Lemma undo_pair_product_is_not_identity :
  (exists vc : ViewContext R,
     new_ViewContext 50 50 0 400 400 1000 = Ok vc /\
     mmul (toModelCoordinates vc) (toDeviceCoordinates vc)
     <> Ok (identity 4)) /\
  (exists vc vc' : ViewContext R,
     new_ViewContext 50 50 0 400 400 1000 = Ok vc /\
     scale 0 1 vc = Ok vc' /\
     mmul (toModelCoordinates vc') (toDeviceCoordinates vc')
     <> Ok (translateFromOrigin vc')).
Proof.
  destruct (new_ViewContext_ok 50 50 0 400 400 (1000 : R))
    as (vc & E & Hw & Em & Ed & _ & _ & _ & Efrom & Eto & _).
  destruct (wf_fields vc Hw) as (Hm & Hd & _).
  split.
  - exists vc. split; [exact E|].
    destruct (mmul_4_4 _ _ Hm Hd) as [Emul _]. rewrite Emul, Em, Ed.
    intros Heq.
    apply (f_equal (fun r => match r with
                             | Ok m => m@[0, 3]
                             | Err _ => 0
                             end)) in Heq.
    eval_R_in Heq. lra.
  - destruct (apply_edit_ok (scale_matrix 0 1)
                (scale_matrix (1 / 0) (1 / 1)) vc Hw)
      as (vc' & Ea & Hw' & Ed' & Em' & _ & _ & _ & _ & Efrom' & _);
      [reflexivity|reflexivity|].
    exists vc, vc'. split; [exact E|]. split; [exact Ea|].
    destruct (wf_fields vc' Hw') as (Hm' & Hd' & _).
    destruct (mmul_4_4 _ _ Hm' Hd') as [Emul _].
    rewrite Emul, Em', Ed', Efrom', Em, Ed, Efrom, Eto.
    intros Heq.
    apply (f_equal (fun r => match r with
                             | Ok m => m@[0, 0]
                             | Err _ => 0
                             end)) in Heq.
    eval_R_in Heq.
    match type of Heq with
    | ?l = _ => assert (Hz : l = 0) by (unfold Rdiv; ring)
    end.
    lra.
Qed.

(** C6. In exact arithmetic, on every reachable state and for all non-zero
    [a] and [b], [scale(a, b)] followed by [scale(1/a, 1/b)] returns and
    leaves [toDeviceCoordinates] as it was before the two calls. *)
Theorem scale_then_inverse_scale_restores
  (vc : ViewContext R) (a b : R) :
  reachable vc -> a <> 0 -> b <> 0 ->
  exists vc1 vc2,
    scale a b vc = Ok vc1 /\
    scale (1 / a) (1 / b) vc1 = Ok vc2 /\
    toDeviceCoordinates vc2 = toDeviceCoordinates vc.
Proof.
  intros Hr Ha Hb.
  destruct (reachable_pivots vc Hr) as (Hw & cx & cy & Efrom & Eto).
  destruct (wf_fields vc Hw) as (_ & Hd & _).
  destruct (apply_edit_ok (scale_matrix a b)
              (scale_matrix (1 / a) (1 / b)) vc Hw)
    as (vc1 & E1 & Hw1 & Ed1 & _ & _ & _ & _ & Eto1 & Efrom1 & _);
    [reflexivity|reflexivity|].
  destruct (apply_edit_ok (scale_matrix (1 / a) (1 / b))
              (scale_matrix (1 / (1 / a)) (1 / (1 / b))) vc1 Hw1)
    as (vc2 & E2 & _ & Ed2 & _); [reflexivity|reflexivity|].
  exists vc1, vc2. split; [exact E1|]. split; [exact E2|].
  rewrite Ed2, Ed1, Efrom1, Eto1, Efrom, Eto.
  apply edit_then_inverse_edit; try assumption; try reflexivity.
  exact (scale_cancel a b Ha Hb).
Qed.

Lemma scale_by_two_then_by_half :
  exists vc : ViewContext R,
    reachable vc /\ 2 <> 0 /\ 2 <> 0 /\
    exists vc1 vc2,
      scale 2 2 vc = Ok vc1 /\
      scale (1 / 2) (1 / 2) vc1 = Ok vc2 /\
      toDeviceCoordinates vc2 = toDeviceCoordinates vc.
Proof.
  destruct (new_ViewContext_ok 50 50 0 400 400 (1000 : R)) as (vc & E & _).
  assert (Hr : reachable vc)
    by exact (new_ViewContext_reachable 50 50 0 400 400 1000 vc E).
  assert (H2 : 2 <> 0) by lra.
  exists vc. split; [exact Hr|]. split; [exact H2|]. split; [exact H2|].
  exact (scale_then_inverse_scale_restores vc 2 2 Hr H2 H2).
Defined.

End RealClaims.

(** ** The end-to-end property of construction *)

Section RealEndToEnd.

Local Open Scope R_scope.

(** C2. For the pipeline constructed with eye (50, 50, 0), screen center
    (400, 400) and [zf = 1000], and no mutator called, [modelToDevice]
    returns on every vertex batch, and a column holding the model origin
    (0, 0, 0, 1) comes out with x = 400 and y = 400. *)
Theorem origin_maps_to_screen_center (batch : matrix R) (i : nat) :
  is_batch batch = true -> (i < 3)%nat ->
  column_is batch i 0 0 0 1 ->
  exists vc d,
    new_ViewContext 50 50 0 400 400 1000 = Ok vc /\
    modelToDevice vc batch = Ok d /\
    d@[0, i] = 400 /\ d@[1, i] = 400.
Proof.
  intros Hb Hi Hc. unfold is_batch in Hb.
  destruct (new_ViewContext_ok 50 50 0 400 400 (1000 : R))
    as (vc & E & Hw & Em & Ed & Ecb & Eh & Ev & Efrom & Eto & Ep & Ez & _).
  destruct (wf_fields vc Hw) as (_ & Hd & Hcb & Hh & Hv & _).
  destruct (mmul_4_3 _ _ Hh Hb) as [E1 S1].
  destruct (mmul_4_3 _ _ Hv S1) as [E2 S2].
  destruct (mmul_4_3 _ _ Hcb S2) as [E3 S3].
  pose proof (project_shape vc _ S3) as S4.
  destruct (mmul_4_3 _ _ Hd S4) as [E4 _].
  exists vc. eexists. split; [exact E|]. split.
  - unfold modelToDevice. rewrite E1. cbn [bind]. rewrite E2. cbn [bind].
    rewrite E3. cbn [bind]. exact E4.
  - unfold project. rewrite Ez, Ed, Ecb, Ev, Eh. clear - Hb Hi Hc.
    explicit43 Hb. unfold column_is in Hc.
    destruct i as [|[|[|i]]]; try lia;
      cbv [mget nth] in Hc; destruct Hc as (-> & -> & -> & ->);
      eval_R; split; unfold Rdiv; ring.
Qed.

(** The axis triangle of [MyDrawing::loadFromFile]: its first vertex is the
    model origin. *)
Lemma axis_triangle_origin_maps_to_center :
  is_batch ([[0; 100; 0]; [0; 0; 0]; [0; 0; 0]; [1; 1; 1]] : matrix R)
  = true /\
  (0 < 3)%nat /\
  column_is ([[0; 100; 0]; [0; 0; 0]; [0; 0; 0]; [1; 1; 1]] : matrix R)
            0 0 0 0 1 /\
  exists vc d,
    new_ViewContext 50 50 0 400 400 1000 = Ok vc /\
    modelToDevice vc [[0; 100; 0]; [0; 0; 0]; [0; 0; 0]; [1; 1; 1]] = Ok d /\
    d@[0, 0] = 400 /\ d@[1, 0] = 400.
Proof.
  assert (Hb : is_batch
                 ([[0; 100; 0]; [0; 0; 0]; [0; 0; 0]; [1; 1; 1]] : matrix R)
               = true) by reflexivity.
  assert (Hi : (0 < 3)%nat) by lia.
  assert (Hc : column_is
                 ([[0; 100; 0]; [0; 0; 0]; [0; 0; 0]; [1; 1; 1]] : matrix R)
                 0 0 0 0 1) by (repeat split).
  split; [exact Hb|]. split; [exact Hi|]. split; [exact Hc|].
  exact (origin_maps_to_screen_center _ 0 Hb Hi Hc).
Defined.

End RealEndToEnd.

(** ** Orbiting *)

Section RealOrbit.

Local Open Scope R_scope.

(** C5, the code at work.  On the pipeline [main] constructs, [vOrbit(0)]
    (a vertical orbit by no angle at all, the cumulative angle being zero)
    leaves in [vOrbitMatrix] the mirror image in the plane z = 0, and not
    the identity that a rotation by zero is. *)
Theorem vOrbit_by_zero_mirrors_z :
  exists vc vc' : ViewContext R,
    new_ViewContext 50 50 0 400 400 1000 = Ok vc /\
    vOrbit 0 vc = Ok vc' /\
    vOrbitMatrix vc' = mirror_z.
Proof.
  destruct (new_ViewContext_ok 50 50 0 400 400 (1000 : R))
    as (vc & E & _ & _ & _ & _ & _ & _ & _ & _ & Ep & _ & _ & Evd).
  destruct (vOrbit_ok 0 vc) as (vc' & E' & Evd' & Evm & _).
  exists vc, vc'. split; [exact E|]. split; [exact E'|].
  rewrite Evm, Evd', Evd. unfold orbit_axis. rewrite Ep.
  eval_R.
  match goal with
  | |- context [R_sqrt.sqrt ?a] =>
      replace a with (50 * 50) by ring;
      rewrite (sqrt_square 50) by lra
  end.
  match goal with
  | |- context [cos ?t] => replace t with 0 by (unfold Rdiv; ring)
  end.
  rewrite cos_0, sin_0.
  repeat (f_equal; try (field; lra)).
Qed.

(** The two frames [vOrbit] conjugates with are never inverse to each
    other: the diagonal entries (0,0) and (2,2) of their product add up to
    zero, and to two in the identity. *)
Lemma axis_frames_are_not_inverse (axisOfRot : matrix R) :
  mmul_raw (rotateToZ_matrix axisOfRot) (rotateFromZ_matrix axisOfRot)
  <> identity 4.
Proof.
  intros Heq.
  assert (H0 := f_equal (fun m : matrix R => m@[0, 0]) Heq).
  assert (H2 := f_equal (fun m : matrix R => m@[2, 2]) Heq).
  eval_R_in H0. eval_R_in H2.
  match type of H0 with
  | ?l0 = _ =>
      match type of H2 with
      | ?l2 = _ => assert (Hs : l0 + l2 = 0) by (unfold Rdiv; ring)
      end
  end.
  lra.
Qed.

(** *** The code's PI and the real one *)

Lemma PI_macro_above_PI : PI < PI_macro.
Proof.
  pose proof (PI_2_3_7_ineq 7) as [_ Hu].
  cbv [Nat.mul Nat.add] in Hu.
  unfold PI_2_3_7_tg, tg_alt, Ratan_seq in Hu.
  cbv [sum_f_R0 Nat.mul Nat.add] in Hu.
  rewrite ?INR_IZR_INZ in Hu. cbn [Z.of_nat Pos.of_succ_nat Pos.succ] in Hu.
  cbn [PI_macro RScalar]. lra.
Qed.

Lemma PI_macro_near_PI : PI_macro - PI < 3 / 10 ^ 13.
Proof.
  pose proof (PI_2_3_7_ineq 7) as [Hl _].
  cbv [Nat.mul Nat.add] in Hl.
  unfold PI_2_3_7_tg, tg_alt, Ratan_seq in Hl.
  cbv [sum_f_R0 Nat.mul Nat.add] in Hl.
  rewrite ?INR_IZR_INZ in Hl. cbn [Z.of_nat Pos.of_succ_nat Pos.succ] in Hl.
  cbn [PI_macro RScalar]. lra.
Qed.

Lemma sin_small (x : R) : 0 <= x <= 1 -> 0 <= sin x <= x.
Proof.
  intros [H0 H1]. destruct (Req_dec x 0) as [->|Hx].
  - rewrite sin_0. lra.
  - pose proof PI2_1. split.
    + apply sin_ge_0; lra.
    + left. apply sin_lt_x. lra.
Qed.

Lemma cos_nearby (x d : R) :
  0 <= d <= 1 -> Rabs (cos (x + d) - cos x) <= d.
Proof.
  intros Hd. rewrite form2.
  replace ((x + d - x) / 2) with (d / 2) by field.
  assert (Hs : 0 <= sin (d / 2) <= d / 2) by (apply sin_small; lra).
  pose proof (SIN_bound ((x + d + x) / 2)) as [Hl Hu].
  set (s1 := sin (d / 2)) in *. set (s2 := sin ((x + d + x) / 2)) in *.
  assert (H1 : 0 <= s1 * (1 - s2)) by (apply Rmult_le_pos; lra).
  assert (H2 : 0 <= s1 * (1 + s2)) by (apply Rmult_le_pos; lra).
  apply Rabs_le. lra.
Qed.

Lemma sin_nearby (x d : R) :
  0 <= d <= 1 -> Rabs (sin (x + d) - sin x) <= d.
Proof.
  intros Hd. rewrite form4.
  replace ((x + d - x) / 2) with (d / 2) by field.
  assert (Hs : 0 <= sin (d / 2) <= d / 2) by (apply sin_small; lra).
  pose proof (COS_bound ((x + d + x) / 2)) as [Hl Hu].
  set (s1 := sin (d / 2)) in *. set (s2 := cos ((x + d + x) / 2)) in *.
  assert (H1 : 0 <= s1 * (1 - s2)) by (apply Rmult_le_pos; lra).
  assert (H2 : 0 <= s1 * (1 + s2)) by (apply Rmult_le_pos; lra).
  apply Rabs_le. lra.
Qed.

(** A full turn measured with the code's PI overshoots by [2 (PI_macro - PI)],
    less than 6e-13. *)
Lemma cos_full_turn (h : R) :
  Rabs (cos (h + 2 * PI_macro) - cos h) <= 1 / 10 ^ 12.
Proof.
  pose proof PI_macro_above_PI. pose proof PI_macro_near_PI.
  replace (h + 2 * PI_macro)
    with (h + 2 * (PI_macro - PI) + 2 * PI) by ring.
  rewrite cos_plus, cos_2PI, sin_2PI.
  replace (cos (h + 2 * (PI_macro - PI)) * 1
           - sin (h + 2 * (PI_macro - PI)) * 0)
    with (cos (h + 2 * (PI_macro - PI))) by ring.
  apply Rle_trans with (2 * (PI_macro - PI)); [apply cos_nearby|]; lra.
Qed.

Lemma sin_full_turn (h : R) :
  Rabs (sin (h + 2 * PI_macro) - sin h) <= 1 / 10 ^ 12.
Proof.
  pose proof PI_macro_above_PI. pose proof PI_macro_near_PI.
  replace (h + 2 * PI_macro)
    with (h + 2 * (PI_macro - PI) + 2 * PI) by ring.
  rewrite sin_plus, cos_2PI, sin_2PI.
  replace (sin (h + 2 * (PI_macro - PI)) * 1
           + cos (h + 2 * (PI_macro - PI)) * 0)
    with (sin (h + 2 * (PI_macro - PI))) by ring.
  apply Rle_trans with (2 * (PI_macro - PI)); [apply sin_nearby|]; lra.
Qed.

(** Four [hOrbit(90)] calls advance the cumulative angle by twice the
    code's PI. *)
Lemma four_quarter_hOrbits_angle (vc : ViewContext R) :
  hdeg (four_hOrbit_90 vc) = hdeg vc + 2 * PI_macro.
Proof.
  cbn [four_hOrbit_90 hOrbit hdeg set_hdeg set_hOrbitMatrix]. eval_R. field.
Qed.

Lemma four_quarter_hOrbits_in_sync (vc : ViewContext R) :
  hOrbitMatrix (four_hOrbit_90 vc) = hOrbit_matrix (hdeg (four_hOrbit_90 vc)).
Proof. reflexivity. Qed.

Lemma hOrbit_in_sync (degrees : R) (vc : ViewContext R) :
  hOrbitMatrix (hOrbit degrees vc) = hOrbit_matrix (hdeg (hOrbit degrees vc)).
Proof. reflexivity. Qed.

Lemma hOrbit_matrix_full_turn (h : R) (i j : nat) :
  Rabs ((hOrbit_matrix (h + 2 * PI_macro))@[i, j] - (hOrbit_matrix h)@[i, j])
  <= 1 / 10 ^ 12.
Proof.
  pose proof (cos_full_turn h) as Hc. pose proof (sin_full_turn h) as Hs.
  assert (Hz : Rabs 0 <= 1 / 10 ^ 12) by (rewrite Rabs_R0; lra).
  set (h' := h + 2 * PI_macro) in *. clearbody h'.
  destruct i as [|[|[|[|i]]]]; destruct j as [|[|[|[|j]]]]; eval_R;
    try destruct i; try destruct j; eval_R;
    match goal with
    | |- Rabs ?e <= _ =>
        first
          [ exact Hc
          | exact Hs
          | replace e with 0 by ring; exact Hz
          | replace e with (cos h' - cos h) by ring; exact Hc
          | replace e with (sin h' - sin h) by ring; exact Hs
          | replace e with (- (sin h' - sin h)) by ring;
            rewrite Rabs_Ropp; exact Hs ]
    end.
Qed.

(** C7, as the code has it.  When [hOrbitMatrix] is the rotation by the
    cumulative angle [hdeg] (as it is after construction and after every
    [hOrbit]), four [hOrbit(90)] calls advance [hdeg] by twice the code's
    PI, rebuild [hOrbitMatrix] as the rotation by the new angle, and bring
    every entry back to within 1e-12 of its value before the four calls. *)
Theorem four_quarter_hOrbits_nearly_restore (vc : ViewContext R) :
  hOrbitMatrix vc = hOrbit_matrix (hdeg vc) ->
  hdeg (four_hOrbit_90 vc) = hdeg vc + 2 * PI_macro /\
  hOrbitMatrix (four_hOrbit_90 vc)
  = hOrbit_matrix (hdeg (four_hOrbit_90 vc)) /\
  forall i j : nat,
    Rabs ((hOrbitMatrix (four_hOrbit_90 vc))@[i, j] - (hOrbitMatrix vc)@[i, j])
    <= 1 / 10 ^ 12.
Proof.
  intros Hsync.
  split; [apply four_quarter_hOrbits_angle|].
  split; [apply four_quarter_hOrbits_in_sync|].
  intros i j.
  rewrite four_quarter_hOrbits_in_sync, four_quarter_hOrbits_angle, Hsync.
  apply hOrbit_matrix_full_turn.
Qed.

(** After construction the orbit matrix is the rotation by the angle zero. *)
Lemma constructed_in_sync (x0 y0 z0 x y : Z) (zf0 : R) (vc : ViewContext R) :
  new_ViewContext x0 y0 z0 x y zf0 = Ok vc ->
  hOrbitMatrix vc = hOrbit_matrix (hdeg vc) /\
  hOrbitMatrix vc = identity 4 /\ hdeg vc = 0 /\ wf vc = true.
Proof.
  intros E.
  destruct (new_ViewContext_ok x0 y0 z0 x y zf0)
    as (vc' & E' & Hw & _ & _ & _ & Eh & _ & _ & _ & _ & _ & Ehd & _).
  assert (vc' = vc) by congruence. subst vc'.
  repeat split; try assumption.
  rewrite Eh, Ehd. eval_R. rewrite cos_0, sin_0.
  repeat (f_equal; try ring).
Qed.

Lemma four_quarter_hOrbits_after_construction :
  exists vc : ViewContext R,
    new_ViewContext 50 50 0 400 400 1000 = Ok vc /\
    hOrbitMatrix vc = hOrbit_matrix (hdeg vc) /\
    hdeg (four_hOrbit_90 vc) = hdeg vc + 2 * PI_macro /\
    hOrbitMatrix (four_hOrbit_90 vc)
    = hOrbit_matrix (hdeg (four_hOrbit_90 vc)) /\
    forall i j : nat,
      Rabs ((hOrbitMatrix (four_hOrbit_90 vc))@[i, j]
            - (hOrbitMatrix vc)@[i, j])
      <= 1 / 10 ^ 12.
Proof.
  destruct (new_ViewContext_ok 50 50 0 400 400 (1000 : R)) as (vc & E & _).
  destruct (constructed_in_sync 50 50 0 400 400 1000 vc E) as (Hsync & _).
  exists vc. split; [exact E|]. split; [exact Hsync|].
  exact (four_quarter_hOrbits_nearly_restore vc Hsync).
Defined.

Lemma hOrbit_matrix_entries (a : R) :
  (hOrbit_matrix a)@[0, 0] = cos a /\ (hOrbit_matrix a)@[0, 2] = 1 * sin a.
Proof. split; reflexivity. Qed.

Lemma sin_full_turn_positive : 0 < sin (2 * PI_macro).
Proof.
  pose proof PI_macro_above_PI. pose proof PI_macro_near_PI.
  pose proof PI2_3_2.
  replace (2 * PI_macro) with (2 * (PI_macro - PI) + 2 * PI) by ring.
  rewrite sin_plus, cos_2PI, sin_2PI.
  replace (sin (2 * (PI_macro - PI)) * 1 + cos (2 * (PI_macro - PI)) * 0)
    with (sin (2 * (PI_macro - PI))) by ring.
  apply sin_gt_0; lra.
Qed.

Lemma cos_five_quarter_turns : cos (5 / 2 * PI_macro) <= 0.
Proof.
  pose proof PI_macro_above_PI. pose proof PI_macro_near_PI.
  replace (5 / 2 * PI_macro)
    with (PI / 2 + 5 / 2 * (PI_macro - PI) + 2 * PI) by field.
  rewrite cos_plus, cos_2PI, sin_2PI.
  rewrite (cos_plus (PI / 2)), cos_PI2, sin_PI2.
  assert (Hs : 0 <= sin (5 / 2 * (PI_macro - PI)) <= 5 / 2 * (PI_macro - PI))
    by (apply sin_small; lra).
  lra.
Qed.

(** C7, as stated, fails twice over.  Counted from the freshly constructed
    pipeline, four [hOrbit(90)] calls leave an orbit matrix that is not the
    one before them (entry (0,2) is the sine of twice the code's PI, which
    is positive); and when a [reset] has put the identity back while the
    cumulative angle stayed at a quarter turn, they leave a matrix that is
    not even near the one before them. *)
Lemma four_quarter_hOrbits_do_not_restore :
  (exists vc : ViewContext R,
     new_ViewContext 50 50 0 400 400 1000 = Ok vc /\
     hOrbitMatrix (four_hOrbit_90 vc) <> hOrbitMatrix vc) /\
  (exists vc vc1 : ViewContext R,
     new_ViewContext 50 50 0 400 400 1000 = Ok vc /\
     reset (hOrbit 90 vc) = Ok vc1 /\
     1 <= Rabs ((hOrbitMatrix (four_hOrbit_90 vc1))@[0, 0]
                - (hOrbitMatrix vc1)@[0, 0])).
Proof.
  destruct (new_ViewContext_ok 50 50 0 400 400 (1000 : R)) as (vc & E & _).
  destruct (constructed_in_sync 50 50 0 400 400 1000 vc E)
    as (_ & Eh & Ehd & Hw).
  split.
  - exists vc. split; [exact E|]. intros Heq.
    apply (f_equal (fun m : matrix R => m@[0, 2])) in Heq.
    rewrite four_quarter_hOrbits_in_sync, four_quarter_hOrbits_angle in Heq.
    rewrite Eh, Ehd in Heq.
    rewrite (proj2 (hOrbit_matrix_entries _)) in Heq.
    replace (0 + 2 * PI_macro) with (2 * PI_macro) in Heq by ring.
    pose proof sin_full_turn_positive as Hs.
    change ((identity 4 : matrix R)@[0, 2]) with 0 in Heq. lra.
  - destruct (reset_ok (hOrbit 90 vc) (hOrbit_wf 90 vc Hw))
      as (vc1 & E1 & _ & _ & _ & Eh1 & _ & _ & _ & _ & _ & _ & _ & Ehd1 & _).
    exists vc, vc1. split; [exact E|]. split; [exact E1|].
    rewrite four_quarter_hOrbits_in_sync, four_quarter_hOrbits_angle.
    rewrite Eh1, Ehd1. rewrite (proj1 (hOrbit_matrix_entries _)).
    change ((identity 4 : matrix R)@[0, 0]) with 1.
    change (hdeg (hOrbit 90 vc)) with (hdeg vc + 90 * (PI_macro / 180)).
    rewrite Ehd.
    replace (0 + 90 * (PI_macro / 180) + 2 * PI_macro)
      with (5 / 2 * PI_macro) by field.
    pose proof cos_five_quarter_turns as Hc.
    rewrite Rabs_left1 by lra. lra.
Qed.

(** The state after a horizontal and a vertical orbit from the pipeline
    [main] constructs: both cumulative angles are the orbits' angles, and
    the horizontal orbit matrix is the rotation by its angle. *)
Lemma orbits_after_construction (h v : R) :
  exists vc0 vc : ViewContext R,
    new_ViewContext 50 50 0 400 400 1000 = Ok vc0 /\
    run_calls [HOrbit h; VOrbit v] vc0 = Ok vc /\
    wf vc = true /\
    hdeg vc = 0 + h * (PI_macro / 180) /\
    vdeg vc = 0 + v * (PI_macro / 180) /\
    hOrbitMatrix vc = hOrbit_matrix (0 + h * (PI_macro / 180)) /\
    toDeviceCoordinates vc = mmul_raw (centering 400 400) (identity 4) /\
    toModelCoordinates vc = identity 4 /\
    translateFromOrigin vc = centering 400 400 /\
    translateToOrigin vc = centering (- 400) (- 400).
Proof.
  destruct (new_ViewContext_ok 50 50 0 400 400 (1000 : R))
    as (vc0 & E0 & Hw0 & Em0 & Ed0 & _ & _ & _ & Efrom0 & Eto0 & _ & _
        & Ehd0 & Evd0).
  destruct (vOrbit_ok v (hOrbit h vc0))
    as (vc & E & Evd & _ & Em & Ed & _ & Eh & Eto & Efrom & _ & _ & _ & Ehd).
  exists vc0, vc. split; [exact E0|].
  split; [cbn [run_calls run_call bind]; rewrite E; reflexivity|].
  split; [exact (vOrbit_wf v _ vc (hOrbit_wf h vc0 Hw0) E)|].
  cbn [hOrbit hdeg vdeg set_hdeg set_hOrbitMatrix hOrbitMatrix
       toDeviceCoordinates toModelCoordinates translateFromOrigin
       translateToOrigin] in *.
  rewrite Ehd, Evd, Eh, Ed, Em, Efrom, Eto.
  unfold hOrbit.
  cbn [hOrbit hdeg vdeg set_hdeg set_hOrbitMatrix hOrbitMatrix
       toDeviceCoordinates toModelCoordinates translateFromOrigin
       translateToOrigin].
  rewrite Ehd0, Evd0, Ed0, Em0, Efrom0, Eto0.
  repeat split.
Qed.

(** The sine of a positive angle of less than 170 degrees, measured with the
    code's PI, is positive. *)
Lemma sin_degrees_positive (d : R) :
  0 < d < 170 -> 0 < sin (0 + d * (PI_macro / 180)).
Proof.
  intros [H0 H1].
  pose proof PI_macro_above_PI. pose proof PI_macro_near_PI.
  pose proof PI2_3_2.
  apply sin_gt_0; nra.
Qed.

(** [reset] after [hOrbit(90)], [vOrbit(45)] and [scale(2, 2)] on the
    pipeline [main] constructs: both cumulative angles are non-zero, the
    horizontal orbit matrix is not the identity and the forward transform
    has the factor 2 in entry (0,0); [reset] puts the identity and the
    centering back and keeps the two angles. *)
Lemma reset_after_orbits_and_scale :
  exists vc : ViewContext R,
    (vc0 <- new_ViewContext 50 50 0 400 400 1000 ;;
     run_calls [HOrbit 90; VOrbit 45; Scale 2 2] vc0) = Ok vc /\
    hdeg vc <> 0 /\ vdeg vc <> 0 /\
    hOrbitMatrix vc <> identity 4 /\
    (toDeviceCoordinates vc)@[0, 0] = 2 /\
    wf vc = true /\
    exists vc',
      reset vc = Ok vc' /\
      toModelCoordinates vc' = identity 4 /\
      hOrbitMatrix vc' = identity 4 /\
      vOrbitMatrix vc' = identity 4 /\
      toDeviceCoordinates vc' =
        mmul_raw (translateFromOrigin vc) (identity 4) /\
      hdeg vc' = hdeg vc /\
      vdeg vc' = vdeg vc.
Proof.
  destruct (orbits_after_construction 90 45)
    as (vc0 & vc1 & E0 & E1 & Hw1 & Ehd1 & Evd1 & Eh1 & Ed1 & _ & Efrom1
        & Eto1).
  destruct (apply_edit_ok (scale_matrix 2 2)
              (scale_matrix (1 / 2) (1 / 2)) vc1 Hw1)
    as (vc & E & Hw & Ed & _ & _ & Eh & _ & _ & _ & _ & _ & _ & Ehd & Evd);
    [reflexivity|reflexivity|].
  assert (Er : (v <- new_ViewContext 50 50 0 400 400 (1000 : R) ;;
                run_calls [HOrbit 90; VOrbit 45; Scale 2 2] v) = Ok vc).
  { rewrite E0. cbn [bind]. cbn [run_calls run_call bind] in E1 |- *.
    destruct (vOrbit 45 (hOrbit 90 vc0)) as [vc1'|] eqn:Ev;
      [|discriminate E1].
    cbn [bind] in E1 |- *. injection E1 as ->.
    unfold scale. cbv zeta. cbn [of_int ddiv RScalar]. rewrite E.
    reflexivity. }
  assert (Hh : hdeg vc <> 0)
    by (rewrite Ehd, Ehd1; cbn [PI_macro RScalar]; lra).
  assert (Hv : vdeg vc <> 0)
    by (rewrite Evd, Evd1; cbn [PI_macro RScalar]; lra).
  assert (Hm : hOrbitMatrix vc <> identity 4).
  { rewrite Eh, Eh1. intros Heq.
    apply (f_equal (fun m : matrix R => m@[0, 2])) in Heq.
    rewrite (proj2 (hOrbit_matrix_entries _)) in Heq.
    change ((identity 4 : matrix R)@[0, 2]) with 0 in Heq.
    assert (Hs : 0 < sin (0 + 90 * (PI_macro / 180)))
      by (apply sin_degrees_positive; lra).
    lra. }
  assert (Hd : (toDeviceCoordinates vc)@[0, 0] = 2).
  { rewrite Ed, Ed1, Efrom1, Eto1. eval_R. ring. }
  exists vc. split; [exact Er|]. split; [exact Hh|]. split; [exact Hv|].
  split; [exact Hm|]. split; [exact Hd|]. split; [exact Hw|].
  exact (reset_keeps_orbit_angles vc Hw).
Defined.

End RealOrbit.

(** * The binary64 reading: not-a-number values *)

Section Binary64Orbit.

Local Open Scope float_scope.

(** A not-a-number operand makes a sum or a product not-a-number. *)
Lemma nan_mul_l (x : float) : nan * x = nan.
Proof.
  apply Prim2SF_inj. rewrite mul_spec.
  change (Prim2SF nan) with S754_nan.
  destruct (Prim2SF x); reflexivity.
Qed.

Lemma nan_mul_r (x : float) : x * nan = nan.
Proof.
  apply Prim2SF_inj. rewrite mul_spec.
  change (Prim2SF nan) with S754_nan.
  destruct (Prim2SF x); reflexivity.
Qed.

Lemma nan_add_l (x : float) : nan + x = nan.
Proof.
  apply Prim2SF_inj. rewrite add_spec.
  change (Prim2SF nan) with S754_nan.
  destruct (Prim2SF x); reflexivity.
Qed.

Lemma nan_add_r (x : float) : x + nan = nan.
Proof.
  apply Prim2SF_inj. rewrite add_spec.
  change (Prim2SF nan) with S754_nan.
  destruct (Prim2SF x); reflexivity.
Qed.

(** The frame of an orbit axis with no horizontal component: 0/0. *)
Lemma rotateFromZ_zero_axis :
  (rotateFromZ_matrix [[0]; [-0]; [0]])@[0, 0] = nan /\
  has_shape 4 4 (rotateFromZ_matrix [[0]; [-0]; [0]]) = true.
Proof. split; vm_compute; reflexivity. Qed.

Lemma product_entry_nan (a f : matrix float) :
  has_shape 4 4 a = true -> has_shape 4 4 f = true ->
  f@[0, 0] = nan ->
  (mmul_raw a f)@[0, 0] = nan.
Proof.
  intros Ha Hf Hn. explicit44 Ha. explicit44 Hf.
  cbv [mget nth] in Hn. subst.
  cbv [mmul_raw dot_row_col mget nth map seq fold_left length ncols
       dadd dmul of_int FloatScalar].
  now rewrite nan_mul_r, nan_add_r, !nan_add_l.
Qed.

Lemma nan_entry_not_finite (m : matrix float) :
  has_shape 4 4 m = true -> m@[0, 0] = nan -> all_finite m = false.
Proof.
  intros Hm Hn. explicit44 Hm. cbv [mget nth] in Hn. subst. reflexivity.
Qed.

Lemma nan_entry_has_nan (m : matrix float) :
  has_shape 4 4 m = true -> m@[0, 0] = nan -> has_nan m = true.
Proof.
  intros Hm Hn. explicit44 Hm. cbv [mget nth] in Hn. subst. reflexivity.
Qed.

Lemma vOrbit_above_target `{Libm float}
  (y0 x y : Z) (zf0 degrees : float) :
  exists vc vc',
    new_ViewContext 0 y0 0 x y zf0 = Ok vc /\
    vOrbit degrees vc = Ok vc' /\
    (vOrbitMatrix vc')@[0, 0] = nan /\
    has_nan (vOrbitMatrix vc') = true /\
    all_finite (vOrbitMatrix vc') = false.
Proof.
  destruct (new_ViewContext_ok 0 y0 0 x y zf0)
    as (vc & E & Hw & _ & _ & _ & _ & _ & _ & _ & Ep & _).
  destruct (vOrbit_ok degrees vc) as (vc' & E' & _ & Evm & _).
  assert (Hw' : wf vc' = true) by (eapply vOrbit_wf; eassumption).
  destruct (wf_fields vc' Hw') as (_ & _ & _ & _ & Hv & _).
  assert (Eax : orbit_axis vc = [[0]; [-0]; [0]]).
  { unfold orbit_axis. rewrite Ep. vm_compute. reflexivity. }
  assert (Hn : (vOrbitMatrix vc')@[0, 0] = nan).
  { rewrite Evm, Eax. destruct rotateFromZ_zero_axis as [Hn Hs].
    apply product_entry_nan; [|exact Hs|exact Hn].
    apply mmul_raw_shape; reflexivity. }
  exists vc, vc'. split; [exact E|]. split; [exact E'|].
  split; [exact Hn|].
  split; [now apply nan_entry_has_nan|now apply nan_entry_not_finite].
Qed.

(** C8, as the code has it.  With the eye on the vertical through the
    target (eye x and z zero), [vOrbit] does not reject the call and does
    not clamp: it returns normally, whatever [std::cos] and [std::sin]
    compute, and the orbit matrix it leaves holds not-a-number values. *)
Theorem vOrbit_above_target_writes_nan `{Libm float}
  (y0 x y : Z) (zf0 degrees : float) :
  exists vc vc',
    new_ViewContext 0 y0 0 x y zf0 = Ok vc /\
    vOrbit degrees vc = Ok vc' /\
    PrimFloat.is_nan (vOrbitMatrix vc')@[0, 0] = true /\
    has_nan (vOrbitMatrix vc') = true.
Proof.
  destruct (vOrbit_above_target y0 x y zf0 degrees)
    as (vc & vc' & E & E' & Hn & Hh & _).
  exists vc, vc'. split; [exact E|]. split; [exact E'|].
  rewrite Hn. split; [reflexivity|exact Hh].
Qed.

(** C8, as stated, fails: with the eye at (0, 50, 0), straight above the
    target, [vOrbit(5)] is neither rejected nor clamped, whatever the
    math library. *)
Lemma vOrbit_does_not_guard_degenerate_axis :
  exists vc : ViewContext float,
    new_ViewContext 0 50 0 400 400 1000 = Ok vc /\
    forall L : Libm float, ~ @guards_degenerate_axis L 5 vc.
Proof.
  destruct (new_ViewContext_ok 0 50 0 400 400 1000)
    as (vc & E & _).
  exists vc. split; [exact E|].
  intros L [Herr | (vc1 & E1 & Hfin)].
  - destruct (@vOrbit_above_target L 50 400 400 1000 5)
      as (vc0 & vc' & E0 & E' & _).
    assert (vc0 = vc) by congruence. subst vc0. congruence.
  - destruct (@vOrbit_above_target L 50 400 400 1000 5)
      as (vc0 & vc' & E0 & E' & _ & _ & Hf).
    assert (vc0 = vc) by congruence. subst vc0.
    assert (vc1 = vc') by congruence. subst vc1. congruence.
Qed.

(** C2 once more, run in binary64 on the axis triangle: the origin, its
    first vertex, lands on (400, 400) exactly. *)
Lemma origin_maps_to_screen_center_binary64 :
  exists d,
    modelToDevice main_vc axis_triangle = Ok d /\
    d@[0, 0] = 400 /\ d@[1, 0] = 400.
Proof.
  eexists. split; [vm_compute; reflexivity|]. split; reflexivity.
Qed.

(** C1 in binary64: after [scale(49, 1)] on the state [main] constructs the
    product of the inverse and the forward transform is not exactly the
    centering translation any more: 49 * (1/49) rounds below one. *)
Lemma undo_pair_rounds_binary64 :
  exists vc p,
    scale 49 1 main_vc = Ok vc /\
    mmul (toModelCoordinates vc) (toDeviceCoordinates vc) = Ok p /\
    PrimFloat.ltb p@[0, 0] 1 = true.
Proof.
  eexists. eexists. split; [vm_compute; reflexivity|].
  split; [vm_compute; reflexivity|]. reflexivity.
Qed.

(** C1 in binary64, at construction: the product is the centering
    translation here too. *)
Lemma undo_pair_at_construction_binary64 :
  mmul (toModelCoordinates main_vc) (toDeviceCoordinates main_vc)
  = Ok (translateFromOrigin main_vc).
Proof. vm_compute. reflexivity. Qed.

(** C6 in binary64: [scale(49, 1)] then [scale(1/49, 1)] brings the forward
    transform back up to rounding only: its entry (0,0), 1 before the two
    calls, ends just below 1. *)
Lemma scale_then_inverse_scale_rounds_binary64 :
  exists vc1 vc2,
    scale 49 1 main_vc = Ok vc1 /\
    scale (1 / 49) (1 / 1) vc1 = Ok vc2 /\
    (toDeviceCoordinates main_vc)@[0, 0] = 1 /\
    PrimFloat.ltb (toDeviceCoordinates vc2)@[0, 0] 1 = true.
Proof.
  eexists. eexists. split; [vm_compute; reflexivity|].
  split; [vm_compute; reflexivity|]. split; reflexivity.
Qed.

(** C6, as stated, fails in binary64, and by more than rounding in the
    last place.  On the state [main] constructs, [scale(a, 1)] followed by
    [scale(1/a, 1)] with a = 2^-50 (both factors exact) leaves entry (0,3)
    of the forward transform at 384 where it was 400; with a = 2^1020 it
    leaves not-a-number values. *)
Lemma scale_then_inverse_scale_does_not_restore_binary64 :
  (exists vc1 vc2,
     PrimFloat.eqb 0x1p-50 0 = false /\
     scale 0x1p-50 1 main_vc = Ok vc1 /\
     scale (1 / 0x1p-50) (1 / 1) vc1 = Ok vc2 /\
     (toDeviceCoordinates main_vc)@[0, 3] = 400 /\
     (toDeviceCoordinates vc2)@[0, 3] = 384 /\
     toDeviceCoordinates vc2 <> toDeviceCoordinates main_vc) /\
  (exists vc1 vc2,
     PrimFloat.eqb 0x1p1020 0 = false /\
     scale 0x1p1020 1 main_vc = Ok vc1 /\
     scale (1 / 0x1p1020) (1 / 1) vc1 = Ok vc2 /\
     PrimFloat.is_nan (toDeviceCoordinates vc2)@[0, 3] = true /\
     toDeviceCoordinates vc2 <> toDeviceCoordinates main_vc).
Proof.
  split.
  - eexists. eexists. split; [reflexivity|].
    split; [vm_compute; reflexivity|].
    split; [vm_compute; reflexivity|].
    split; [reflexivity|]. split; [reflexivity|].
    intros Heq.
    apply (f_equal (fun m : matrix float => PrimFloat.eqb m@[0, 3] 400))
      in Heq.
    vm_compute in Heq. discriminate Heq.
  - eexists. eexists. split; [reflexivity|].
    split; [vm_compute; reflexivity|].
    split; [vm_compute; reflexivity|].
    split; [reflexivity|].
    intros Heq.
    apply (f_equal (fun m : matrix float => PrimFloat.eqb m@[0, 3] 400))
      in Heq.
    vm_compute in Heq. discriminate Heq.
Qed.

End Binary64Orbit.


(** * Further properties of the code *)

(** ** The vector helpers and the eye frame, in exact arithmetic *)

Section RealVectors.

Local Open Scope R_scope.

(** X1. The cross product of two 3x1 matrices is orthogonal to both. *)
Theorem crossProduct3X1_orthogonal (a b : matrix R) :
  dot (crossProduct3X1 a b) a = 0 /\ dot (crossProduct3X1 a b) b = 0.
Proof.
  split; eval_R; ring.
Qed.

Lemma magnitude_squared (a : matrix R) :
  magnitude a * magnitude a
  = a@[0, 0] * a@[0, 0] + a@[1, 0] * a@[1, 0] + a@[2, 0] * a@[2, 0].
Proof.
  unfold magnitude. cbn [dsqrt dadd dpow2 RScalar].
  apply sqrt_sqrt. nra.
Qed.

Lemma magnitude_nonneg (a : matrix R) : 0 <= magnitude a.
Proof. unfold magnitude. cbn [dsqrt RScalar]. apply sqrt_pos. Qed.

(** X2. [normalize] gives a vector of magnitude one, whenever the vector
    it is given has a non-zero magnitude. *)
Theorem normalize_has_magnitude_one (a : matrix R) :
  magnitude a <> 0 -> magnitude (normalize a) = 1.
Proof.
  intros Hn. pose proof (magnitude_squared a) as Hsq.
  pose proof (magnitude_nonneg a) as Hpos.
  unfold magnitude at 1. unfold normalize.
  set (n := magnitude a) in *.
  eval_R.
  match goal with
  | |- R_sqrt.sqrt ?e = 1 =>
      replace e with 1;
      [ apply sqrt_1 | ]
  end.
  eval_R_in Hsq. field_simplify_eq; [|exact Hn]. lra.
Qed.

Lemma normalize_3_0_4 :
  magnitude ([[3]; [0]; [4]] : matrix R) <> 0 /\
  magnitude (normalize ([[3]; [0]; [4]] : matrix R)) = 1.
Proof.
  assert (Hn : magnitude ([[3]; [0]; [4]] : matrix R) <> 0).
  { intros Hz. pose proof (magnitude_squared [[3]; [0]; [4]]) as Hsq.
    rewrite Hz in Hsq. eval_R_in Hsq. lra. }
  split; [exact Hn|].
  exact (normalize_has_magnitude_one _ Hn).
Defined.

End RealVectors.


(** [frame_atoms] names the square roots of [transformBasis] (the
    magnitude of the eye and of its cross product with the vertical) and
    records their squares and that they are not zero. *)
Ltac frame_atoms :=
  repeat match goal with
         | |- context [R_sqrt.sqrt ?e] =>
             let s := fresh "s" in
             let Hs := fresh "Hsq" in
             let Hn := fresh "Hnz" in
             assert (Hs : (R_sqrt.sqrt e * R_sqrt.sqrt e = e)%R)
               by (apply sqrt_sqrt; nra);
             assert (Hn : (R_sqrt.sqrt e <> 0)%R)
               by (intros Hz; rewrite Hz in Hs; nra);
             set (s := R_sqrt.sqrt e) in *
         end.

Section RealEyeFrame.

Local Open Scope R_scope.

Lemma eye_off_vertical_real (x0 z0 : Z) :
  eye_off_vertical x0 z0 -> 0 < IZR x0 * IZR x0 + IZR z0 * IZR z0.
Proof.
  intros [Hx | Hz].
  - assert (IZR x0 <> 0) by (now apply not_0_IZR). nra.
  - assert (IZR z0 <> 0) by (now apply not_0_IZR). nra.
Qed.

(** X3. For an eye off the vertical through the target, the rows of the
    rotation part of [changeBasisMatrix] are orthonormal, and its last row
    is (0, 0, 0, 1). *)
Theorem changeBasisMatrix_orthonormal (x0 y0 z0 x y : Z) (zf0 : R) :
  eye_off_vertical x0 z0 ->
  exists vc,
    new_ViewContext x0 y0 z0 x y zf0 = Ok vc /\
    (forall i k : nat, (i < 3)%nat -> (k < 3)%nat ->
       (changeBasisMatrix vc)@[i, 0] * (changeBasisMatrix vc)@[k, 0]
       + (changeBasisMatrix vc)@[i, 1] * (changeBasisMatrix vc)@[k, 1]
       + (changeBasisMatrix vc)@[i, 2] * (changeBasisMatrix vc)@[k, 2]
       = if Nat.eqb i k then 1 else 0) /\
    (changeBasisMatrix vc)@[3, 0] = 0 /\ (changeBasisMatrix vc)@[3, 1] = 0 /\
    (changeBasisMatrix vc)@[3, 2] = 0 /\ (changeBasisMatrix vc)@[3, 3] = 1.
Proof.
  intros Heye. pose proof (eye_off_vertical_real x0 z0 Heye) as Hpos.
  destruct (new_ViewContext_ok x0 y0 z0 x y zf0)
    as (vc & E & _ & _ & _ & Ecb & _).
  exists vc. split; [exact E|]. rewrite Ecb. clear E Ecb vc.
  split; [|repeat split; eval_R; reflexivity].
  intros i k Hi Hk.
  destruct i as [|[|[|i]]]; try lia; destruct k as [|[|[|k]]]; try lia;
    cbn [Nat.eqb]; eval_R;
    set (px := IZR x0) in *; set (py := IZR y0) in *; set (pz := IZR z0) in *;
    clearbody px py pz; frame_atoms;
    field_simplify_eq; try (split; assumption); try assumption;
    repeat match goal with
           | Hq : ?r * ?r = _ |- context [?r ^ 2] =>
               replace (r ^ 2) with (r * r) by ring; rewrite Hq
           end;
    ring.
Qed.

Lemma changeBasisMatrix_orthonormal_main :
  eye_off_vertical 50 0 /\
  exists vc,
    new_ViewContext 50 50 0 400 400 (1000 : R) = Ok vc /\
    (forall i k : nat, (i < 3)%nat -> (k < 3)%nat ->
       (changeBasisMatrix vc)@[i, 0] * (changeBasisMatrix vc)@[k, 0]
       + (changeBasisMatrix vc)@[i, 1] * (changeBasisMatrix vc)@[k, 1]
       + (changeBasisMatrix vc)@[i, 2] * (changeBasisMatrix vc)@[k, 2]
       = if Nat.eqb i k then 1 else 0) /\
    (changeBasisMatrix vc)@[3, 0] = 0 /\ (changeBasisMatrix vc)@[3, 1] = 0 /\
    (changeBasisMatrix vc)@[3, 2] = 0 /\ (changeBasisMatrix vc)@[3, 3] = 1.
Proof.
  assert (He : eye_off_vertical 50 0) by (left; lia).
  split; [exact He|].
  exact (changeBasisMatrix_orthonormal 50 50 0 400 400 1000 He).
Defined.

End RealEyeFrame.

Section RealEyeFrameMaps.

Local Open Scope R_scope.

(** X4. For an eye off the vertical, [deviceToModel] (the change to the eye
    frame) sends the eye to the origin of the eye frame and the target, the
    world origin, to the point at the eye's distance down the negative z
    axis. *)
Theorem deviceToModel_eye_and_target
  (x0 y0 z0 x y : Z) (zf0 : R) (batch : matrix R) (i k : nat) :
  eye_off_vertical x0 z0 ->
  is_batch batch = true -> (i < 3)%nat -> (k < 3)%nat ->
  column_is batch i (IZR x0) (IZR y0) (IZR z0) 1 ->
  column_is batch k 0 0 0 1 ->
  exists vc d,
    new_ViewContext x0 y0 z0 x y zf0 = Ok vc /\
    deviceToModel vc batch = Ok d /\
    column_is d i 0 0 0 1 /\
    column_is d k 0 0 (- eye_distance x0 y0 z0) 1.
Proof.
  intros Heye Hb Hi Hk Hci Hck.
  pose proof (eye_off_vertical_real x0 z0 Heye) as Hpos.
  unfold is_batch in Hb.
  destruct (new_ViewContext_ok x0 y0 z0 x y zf0)
    as (vc & E & Hw & _ & _ & Ecb & _).
  destruct (wf_fields vc Hw) as (_ & _ & Hcb & _).
  destruct (mmul_4_3 _ _ Hcb Hb) as [Em _].
  exists vc. eexists. split; [exact E|]. split; [exact Em|].
  rewrite Ecb. clear E Ecb Em Hcb Hw vc. unfold eye_distance.
  explicit43 Hb. unfold column_is in *.
  split.
  - clear Hck Hk k.
    destruct i as [|[|[|i]]]; try lia;
      cbv [mget nth] in Hci; destruct Hci as (-> & -> & -> & ->);
      repeat split; eval_R; unfold Rdiv; ring.
  - clear Hci Hi i.
    destruct k as [|[|[|k]]]; try lia;
      cbv [mget nth] in Hck; destruct Hck as (-> & -> & -> & ->);
      repeat split; eval_R;
      set (px := IZR x0) in *; set (py := IZR y0) in *;
      set (pz := IZR z0) in *; clearbody px py pz;
      try (unfold Rdiv; ring);
      frame_atoms; field_simplify_eq; try assumption;
      repeat match goal with
             | Hq : ?r * ?r = _ |- context [?r ^ 2] =>
                 replace (r ^ 2) with (r * r) by ring; rewrite Hq
             end;
      ring.
Qed.

Lemma deviceToModel_eye_and_target_main :
  eye_off_vertical 50 0 /\
  is_batch ([[50; 0; 0]; [50; 0; 0]; [0; 0; 0]; [1; 1; 1]] : matrix R)
  = true /\
  (0 < 3)%nat /\ (1 < 3)%nat /\
  column_is ([[50; 0; 0]; [50; 0; 0]; [0; 0; 0]; [1; 1; 1]] : matrix R)
            0 (IZR 50) (IZR 50) (IZR 0) 1 /\
  column_is ([[50; 0; 0]; [50; 0; 0]; [0; 0; 0]; [1; 1; 1]] : matrix R)
            1 0 0 0 1 /\
  exists vc d,
    new_ViewContext 50 50 0 400 400 (1000 : R) = Ok vc /\
    deviceToModel vc [[50; 0; 0]; [50; 0; 0]; [0; 0; 0]; [1; 1; 1]] = Ok d /\
    column_is d 0 0 0 0 1 /\
    column_is d 1 0 0 (- eye_distance 50 50 0) 1.
Proof.
  assert (He : eye_off_vertical 50 0) by (left; lia).
  assert (Hb : is_batch
                 ([[50; 0; 0]; [50; 0; 0]; [0; 0; 0]; [1; 1; 1]] : matrix R)
               = true) by reflexivity.
  assert (Hi : (0 < 3)%nat) by lia.
  assert (Hk : (1 < 3)%nat) by lia.
  assert (Hci : column_is
                  ([[50; 0; 0]; [50; 0; 0]; [0; 0; 0]; [1; 1; 1]] : matrix R)
                  0 (IZR 50) (IZR 50) (IZR 0) 1) by (repeat split).
  assert (Hck : column_is
                  ([[50; 0; 0]; [50; 0; 0]; [0; 0; 0]; [1; 1; 1]] : matrix R)
                  1 0 0 0 1) by (repeat split).
  split; [exact He|]. split; [exact Hb|]. split; [exact Hi|].
  split; [exact Hk|]. split; [exact Hci|]. split; [exact Hck|].
  exact (deviceToModel_eye_and_target 50 50 0 400 400 1000 _ 0%nat 1%nat
           He Hb Hi Hk Hci Hck).
Defined.

(** X5. For every eye off the vertical and every screen center, with the
    field of view such that the projection of the target is defined
    (distance + zf not zero), and no mutator called, [modelToDevice] maps
    the model origin to the screen center. *)
Theorem origin_maps_to_any_screen_center
  (x0 y0 z0 x y : Z) (zf0 : R) (batch : matrix R) (i : nat) :
  eye_off_vertical x0 z0 ->
  eye_distance x0 y0 z0 + zf0 <> 0 ->
  is_batch batch = true -> (i < 3)%nat ->
  column_is batch i 0 0 0 1 ->
  exists vc d,
    new_ViewContext x0 y0 z0 x y zf0 = Ok vc /\
    modelToDevice vc batch = Ok d /\
    d@[0, i] = IZR x /\ d@[1, i] = IZR y.
Proof.
  intros _ _ Hb Hi Hc. unfold is_batch in Hb.
  destruct (new_ViewContext_ok x0 y0 z0 x y zf0)
    as (vc & E & Hw & Em & Ed & Ecb & Eh & Ev & Efrom & Eto & Ep & Ez & _).
  destruct (wf_fields vc Hw) as (_ & Hd & Hcb & Hh & Hv & _).
  destruct (mmul_4_3 _ _ Hh Hb) as [E1 S1].
  destruct (mmul_4_3 _ _ Hv S1) as [E2 S2].
  destruct (mmul_4_3 _ _ Hcb S2) as [E3 S3].
  pose proof (project_shape vc _ S3) as S4.
  destruct (mmul_4_3 _ _ Hd S4) as [E4 _].
  exists vc. eexists. split; [exact E|]. split.
  - unfold modelToDevice. rewrite E1. cbn [bind]. rewrite E2. cbn [bind].
    rewrite E3. cbn [bind]. exact E4.
  - unfold project. rewrite Ez, Ed, Ecb, Ev, Eh. clear - Hb Hi Hc.
    explicit43 Hb. unfold column_is in Hc.
    destruct i as [|[|[|i]]]; try lia;
      cbv [mget nth] in Hc; destruct Hc as (-> & -> & -> & ->);
      eval_R; split; unfold Rdiv; ring.
Qed.

Lemma origin_maps_to_center_from_above :
  eye_off_vertical 0 30 /\
  eye_distance 0 40 30 + 500 <> 0 /\
  is_batch ([[0; 100; 0]; [0; 0; 0]; [0; 0; 0]; [1; 1; 1]] : matrix R)
  = true /\
  (0 < 3)%nat /\
  column_is ([[0; 100; 0]; [0; 0; 0]; [0; 0; 0]; [1; 1; 1]] : matrix R)
            0 0 0 0 1 /\
  exists vc d,
    new_ViewContext 0 40 30 320 240 (500 : R) = Ok vc /\
    modelToDevice vc [[0; 100; 0]; [0; 0; 0]; [0; 0; 0]; [1; 1; 1]] = Ok d /\
    d@[0, 0] = IZR 320 /\ d@[1, 0] = IZR 240.
Proof.
  assert (He : eye_off_vertical 0 30) by (right; lia).
  assert (Hz : eye_distance 0 40 30 + 500 <> 0).
  { unfold eye_distance.
    pose proof (sqrt_pos (IZR 0 * IZR 0 + IZR 40 * IZR 40 + IZR 30 * IZR 30)).
    lra. }
  assert (Hb : is_batch
                 ([[0; 100; 0]; [0; 0; 0]; [0; 0; 0]; [1; 1; 1]] : matrix R)
               = true) by reflexivity.
  assert (Hi : (0 < 3)%nat) by lia.
  assert (Hc : column_is
                 ([[0; 100; 0]; [0; 0; 0]; [0; 0; 0]; [1; 1; 1]] : matrix R)
                 0 0 0 0 1) by (repeat split).
  split; [exact He|]. split; [exact Hz|]. split; [exact Hb|].
  split; [exact Hi|]. split; [exact Hc|].
  exact (origin_maps_to_any_screen_center 0 40 30 320 240 500 _ 0%nat
           He Hz Hb Hi Hc).
Defined.

End RealEyeFrameMaps.

(** ** Sessions: construction followed by calls, for every reading of
    [double] *)

Section GenericSessions.

Context {T : Type} `{Scalar T} `{Libm T}.

(** X6. Whatever the arguments of the constructor and whatever the calls
    that follow, the constructor and every call return; the eye, the eye
    frame [changeBasisMatrix] and the centering pair stay as the
    constructor left them, and so does [deviceToModel]. *)
Theorem calls_return_and_keep_eye_frame
  (x0 y0 z0 x y : Z) (zf0 : T) (cs : list (call T)) :
  exists vc0 vc,
    new_ViewContext x0 y0 z0 x y zf0 = Ok vc0 /\
    run_calls cs vc0 = Ok vc /\
    p0 vc = p0 vc0 /\
    changeBasisMatrix vc = changeBasisMatrix vc0 /\
    translateFromOrigin vc = centering (of_int x) (of_int y) /\
    translateToOrigin vc = centering (dneg (of_int x)) (dneg (of_int y)) /\
    forall b, deviceToModel vc b = deviceToModel vc0 b.
Proof.
  destruct (new_ViewContext_ok x0 y0 z0 x y zf0)
    as (vc0 & E0 & Hw0 & _ & _ & _ & _ & _ & Efrom & Eto & _).
  destruct (run_calls_ok cs vc0 Hw0) as (vc & E & _ & Eto' & Efrom' & Ecb & Ep).
  exists vc0, vc. split; [exact E0|]. split; [exact E|].
  split; [exact Ep|]. split; [exact Ecb|].
  split; [congruence|]. split; [congruence|].
  intros b. unfold deviceToModel. rewrite Ecb. reflexivity.
Qed.

(** X7. [reset] after any sequence of calls returns and puts back what
    the constructor left in the forward and inverse transforms and in both
    orbit matrices; the field of view [zf] and the cumulative angles stay
    as the calls left them, so that [modelToDevice] is the one of the
    constructed state at the current field of view. *)
Theorem reset_restores_construction
  (x0 y0 z0 x y : Z) (zf0 : T) (cs : list (call T)) :
  exists vc0 vc1 vc,
    new_ViewContext x0 y0 z0 x y zf0 = Ok vc0 /\
    run_calls cs vc0 = Ok vc1 /\
    reset vc1 = Ok vc /\
    toDeviceCoordinates vc = toDeviceCoordinates vc0 /\
    toModelCoordinates vc = toModelCoordinates vc0 /\
    hOrbitMatrix vc = hOrbitMatrix vc0 /\
    vOrbitMatrix vc = vOrbitMatrix vc0 /\
    zf vc = zf vc1 /\ hdeg vc = hdeg vc1 /\ vdeg vc = vdeg vc1 /\
    forall b, modelToDevice vc b = modelToDevice (set_zf (zf vc1) vc0) b.
Proof.
  destruct (new_ViewContext_ok x0 y0 z0 x y zf0)
    as (vc0 & E0 & Hw0 & Em0 & Ed0 & _ & Eh0 & Ev0 & Efrom0 & _).
  destruct (run_calls_ok cs vc0 Hw0)
    as (vc1 & E1 & Hw1 & _ & Efrom1 & Ecb1 & _).
  destruct (reset_ok vc1 Hw1)
    as (vc & E & _ & Em & Ed & Eh & Ev & Ecb & _ & _ & _ & _ & Ez & Ehd & Evd).
  assert (Ed' : toDeviceCoordinates vc = toDeviceCoordinates vc0)
    by (rewrite Ed, Ed0, Efrom1, Efrom0; reflexivity).
  assert (Eh' : hOrbitMatrix vc = hOrbitMatrix vc0) by congruence.
  assert (Ev' : vOrbitMatrix vc = vOrbitMatrix vc0) by congruence.
  assert (Ecb' : changeBasisMatrix vc = changeBasisMatrix vc0) by congruence.
  exists vc0, vc1, vc. split; [exact E0|]. split; [exact E1|].
  split; [exact E|]. split; [exact Ed'|]. split; [congruence|].
  split; [exact Eh'|]. split; [exact Ev'|].
  split; [exact Ez|]. split; [exact Ehd|]. split; [exact Evd|].
  intros b. unfold modelToDevice, project.
  cbn [set_zf hOrbitMatrix vOrbitMatrix changeBasisMatrix toDeviceCoordinates
       zf].
  rewrite Eh', Ev', Ecb', Ed', Ez. reflexivity.
Qed.

(** X8. [reset] does not forget an orbit: it puts the identity in both
    orbit matrices and keeps the cumulative angles, and the next [hOrbit] or
    [vOrbit] rebuilds its matrix from the cumulative angle, so that an orbit
    after [reset] leaves the orbit matrix it would have left without the
    [reset]. *)
Theorem orbit_after_reset_ignores_reset (degrees : T) (vc : ViewContext T) :
  wf vc = true ->
  exists vc1,
    reset vc = Ok vc1 /\
    hOrbitMatrix vc1 = identity 4 /\
    vOrbitMatrix vc1 = identity 4 /\
    hOrbitMatrix (hOrbit degrees vc1) = hOrbitMatrix (hOrbit degrees vc) /\
    exists v1 v,
      vOrbit degrees vc1 = Ok v1 /\
      vOrbit degrees vc = Ok v /\
      vOrbitMatrix v1 = vOrbitMatrix v.
Proof.
  intros Hw.
  destruct (reset_ok vc Hw)
    as (vc1 & E & _ & _ & _ & Eh & Ev & _ & _ & _ & Ep & _ & _ & Ehd & Evd).
  exists vc1. split; [exact E|]. split; [exact Eh|]. split; [exact Ev|].
  split.
  - cbn [hOrbit hOrbitMatrix set_hOrbitMatrix set_hdeg hdeg].
    rewrite Ehd. reflexivity.
  - destruct (vOrbit_ok degrees vc1) as (v1 & E1 & Evd1 & Em1 & _).
    destruct (vOrbit_ok degrees vc) as (v & E2 & Evd2 & Em2 & _).
    exists v1, v. split; [exact E1|]. split; [exact E2|].
    rewrite Em1, Em2, Evd1, Evd2, Evd. unfold orbit_axis. rewrite Ep.
    reflexivity.
Qed.

End GenericSessions.

Section RealSessions.

Local Open Scope R_scope.

(** An orbit after [reset] on a state with stale angles: after
    [hOrbit(30)] and [vOrbit(20)] on the pipeline [main] constructs both
    cumulative angles are non-zero and the horizontal orbit matrix is not
    the identity; [reset] puts the identity in both orbit matrices, and an
    orbit by 15 degrees after it leaves the orbit matrices it leaves without
    the [reset]. *)
Lemma orbit_after_reset_with_stale_angles :
  exists vc : ViewContext R,
    (vc0 <- new_ViewContext 50 50 0 400 400 1000 ;;
     run_calls [HOrbit 30; VOrbit 20] vc0) = Ok vc /\
    hdeg vc <> 0 /\ vdeg vc <> 0 /\
    hOrbitMatrix vc <> identity 4 /\
    wf vc = true /\
    exists vc1,
      reset vc = Ok vc1 /\
      hOrbitMatrix vc1 = identity 4 /\
      vOrbitMatrix vc1 = identity 4 /\
      hOrbitMatrix (hOrbit 15 vc1) = hOrbitMatrix (hOrbit 15 vc) /\
      exists v1 v,
        vOrbit 15 vc1 = Ok v1 /\
        vOrbit 15 vc = Ok v /\
        vOrbitMatrix v1 = vOrbitMatrix v.
Proof.
  destruct (orbits_after_construction 30 20)
    as (vc0 & vc & E0 & E & Hw & Ehd & Evd & Eh & _).
  assert (Er : (v <- new_ViewContext 50 50 0 400 400 (1000 : R) ;;
                run_calls [HOrbit 30; VOrbit 20] v) = Ok vc)
    by (rewrite E0; exact E).
  assert (Hh : hdeg vc <> 0) by (rewrite Ehd; cbn [PI_macro RScalar]; lra).
  assert (Hv : vdeg vc <> 0) by (rewrite Evd; cbn [PI_macro RScalar]; lra).
  assert (Hm : hOrbitMatrix vc <> identity 4).
  { rewrite Eh. intros Heq.
    apply (f_equal (fun m : matrix R => m@[0, 2])) in Heq.
    rewrite (proj2 (hOrbit_matrix_entries _)) in Heq.
    change ((identity 4 : matrix R)@[0, 2]) with 0 in Heq.
    assert (Hs : 0 < sin (0 + 30 * (PI_macro / 180)))
      by (apply sin_degrees_positive; lra).
    lra. }
  exists vc. split; [exact Er|]. split; [exact Hh|]. split; [exact Hv|].
  split; [exact Hm|]. split; [exact Hw|].
  exact (orbit_after_reset_ignores_reset 15 vc Hw).
Defined.

End RealSessions.

(** ** Screen-space edits in exact arithmetic: composition and round trips *)

Section RealEdits.

Local Open Scope R_scope.

(** Two edits in a row: the forward transform takes the product of the two
    edit matrices between the centering pair, the inverse transform the
    product of the two undo matrices, and nothing else changes. *)
Lemma apply_edit_twice (e1 u1 e2 u2 : matrix R) (vc : ViewContext R) :
  reachable vc ->
  has_shape 4 4 e1 = true -> has_shape 4 4 u1 = true ->
  has_shape 4 4 e2 = true -> has_shape 4 4 u2 = true ->
  exists vc1 vc2,
    apply_edit e1 u1 vc = Ok vc1 /\
    apply_edit e2 u2 vc1 = Ok vc2 /\
    toDeviceCoordinates vc2 =
      mmul_raw (mmul_raw (mmul_raw (translateFromOrigin vc) (mmul_raw e2 e1))
                         (translateToOrigin vc))
               (toDeviceCoordinates vc) /\
    toModelCoordinates vc2 =
      mmul_raw (mmul_raw (mmul_raw (toModelCoordinates vc)
                                   (translateFromOrigin vc))
                         (mmul_raw u1 u2))
               (translateToOrigin vc) /\
    changeBasisMatrix vc2 = changeBasisMatrix vc /\
    hOrbitMatrix vc2 = hOrbitMatrix vc /\
    vOrbitMatrix vc2 = vOrbitMatrix vc /\
    translateToOrigin vc2 = translateToOrigin vc /\
    translateFromOrigin vc2 = translateFromOrigin vc /\
    p0 vc2 = p0 vc /\ pref vc2 = pref vc /\
    zf vc2 = zf vc /\ hdeg vc2 = hdeg vc /\ vdeg vc2 = vdeg vc.
Proof.
  intros Hr He1 Hu1 He2 Hu2.
  destruct (reachable_pivots vc Hr) as (Hw & cx & cy & Efrom & Eto).
  destruct (wf_fields vc Hw) as (Hm & Hd & _).
  destruct (apply_edit_ok e1 u1 vc Hw He1 Hu1)
    as (vc1 & E1 & Hw1 & Ed1 & Em1 & Ecb1 & Eh1 & Ev1 & Eto1 & Efrom1
        & Ep1 & Eq1 & Ez1 & Ehd1 & Evd1).
  destruct (apply_edit_ok e2 u2 vc1 Hw1 He2 Hu2)
    as (vc2 & E2 & Hw2 & Ed2 & Em2 & Ecb2 & Eh2 & Ev2 & Eto2 & Efrom2
        & Ep2 & Eq2 & Ez2 & Ehd2 & Evd2).
  exists vc1, vc2. split; [exact E1|]. split; [exact E2|].
  split; [|split]; [| |repeat split; congruence].
  - rewrite Ed2, Ed1, Efrom1, Eto1, Efrom, Eto.
    rewrite !mmul_raw_assoc by shape44.
    rewrite (cancel_left (centering (- cx) (- cy)) (centering cx cy))
      by (shape44 || apply centering_to_from).
    reflexivity.
  - rewrite Em2, Em1, Efrom1, Eto1, Efrom, Eto.
    rewrite !mmul_raw_assoc by shape44.
    rewrite (cancel_left (centering (- cx) (- cy)) (centering cx cy))
      by (shape44 || apply centering_to_from).
    reflexivity.
Qed.

(** An edit by the identity, undone by the identity, changes nothing. *)
Lemma identity_between_pivots (cx cy : R) (m : matrix R) :
  has_shape 4 4 m = true ->
  mmul_raw (mmul_raw (mmul_raw (centering cx cy) (identity 4))
                     (centering (- cx) (- cy))) m = m /\
  mmul_raw (mmul_raw (mmul_raw m (centering cx cy)) (identity 4))
           (centering (- cx) (- cy)) = m.
Proof.
  intros Hm. split.
  - rewrite mmul_raw_id_r by reflexivity.
    rewrite centering_from_to. now apply mmul_raw_id_l.
  - rewrite mmul_raw_id_r by shape44.
    rewrite mmul_raw_assoc by shape44.
    rewrite centering_from_to. now apply mmul_raw_id_r.
Qed.

(** Two edits in a row that cancel restore the whole state. *)
Lemma apply_edit_round_trip (e1 u1 e2 u2 : matrix R) (vc : ViewContext R) :
  reachable vc ->
  has_shape 4 4 e1 = true -> has_shape 4 4 u1 = true ->
  has_shape 4 4 e2 = true -> has_shape 4 4 u2 = true ->
  mmul_raw e2 e1 = identity 4 -> mmul_raw u1 u2 = identity 4 ->
  exists vc1 vc2,
    apply_edit e1 u1 vc = Ok vc1 /\
    apply_edit e2 u2 vc1 = Ok vc2 /\
    vc2 = vc.
Proof.
  intros Hr He1 Hu1 He2 Hu2 Ee Eu.
  destruct (reachable_pivots vc Hr) as (Hw & cx & cy & Efrom & Eto).
  destruct (wf_fields vc Hw) as (Hm & Hd & _).
  destruct (apply_edit_twice e1 u1 e2 u2 vc Hr He1 Hu1 He2 Hu2)
    as (vc1 & vc2 & E1 & E2 & Ed & Em & Ecb & Eh & Ev & Eto2 & Efrom2
        & Ep & Eq & Ez & Ehd & Evd).
  exists vc1, vc2. split; [exact E1|]. split; [exact E2|].
  rewrite Ee, Efrom, Eto in Ed. rewrite Eu, Efrom, Eto in Em.
  rewrite (proj1 (identity_between_pivots cx cy _ Hd)) in Ed.
  rewrite (proj2 (identity_between_pivots cx cy _ Hm)) in Em.
  destruct vc as [m d cb h v tto tfo p q z hd vd].
  destruct vc2 as [m2 d2 cb2 h2 v2 tto2 tfo2 p2 q2 z2 hd2 vd2].
  cbn [toModelCoordinates toDeviceCoordinates changeBasisMatrix hOrbitMatrix
       vOrbitMatrix translateToOrigin translateFromOrigin p0 pref zf hdeg
       vdeg] in *.
  congruence.
Qed.

Lemma rotate_matrix_add (s t : R) :
  mmul_raw (rotate_matrix s) (rotate_matrix t) = rotate_matrix (t + s).
Proof.
  eval_R. rewrite cos_plus, sin_plus. repeat (f_equal; try ring).
Qed.

Lemma scale_matrix_mul (a b c d : R) :
  mmul_raw (scale_matrix c d) (scale_matrix a b) = scale_matrix (a * c) (b * d).
Proof. eval_R. repeat (f_equal; try ring). Qed.

(** The centering pair does nothing to a translation. *)
Lemma translate_between_pivots (cx cy : R) (x y : Z) :
  mmul_raw (mmul_raw (centering cx cy) (translate_matrix x y))
           (centering (- cx) (- cy))
  = translate_matrix x y.
Proof. eval_R. repeat (f_equal; try ring). Qed.

Lemma rotate_matrix_zero (t : R) : t = 0 -> rotate_matrix t = identity 4.
Proof.
  intros ->. eval_R. rewrite cos_0, sin_0. repeat (f_equal; try ring).
Qed.

(** The round trips of the three edits, as calls. *)
Lemma translate_round_trip (x y : Z) (vc : ViewContext R) :
  reachable vc -> negatable x -> negatable y ->
  exists vc1 vc2,
    run_call (Translate x y) vc = Ok vc1 /\
    run_call (Translate (- x) (- y)) vc1 = Ok vc2 /\
    vc2 = vc.
Proof.
  intros Hr Hx Hy. cbn [run_call]. unfold translate. cbv zeta.
  assert (Hx' : negatable (- x))
    by (unfold negatable, int_min, int_max in *; lia).
  assert (Hy' : negatable (- y))
    by (unfold negatable, int_min, int_max in *; lia).
  apply apply_edit_round_trip; try assumption; try reflexivity.
  - rewrite <- (int_neg_negatable x Hx), <- (int_neg_negatable y Hy).
    exact (translate_cancel x y Hx Hy).
  - rewrite (int_neg_negatable (- x) Hx'), (int_neg_negatable (- y) Hy').
    rewrite !Z.opp_involutive.
    exact (translate_cancel x y Hx Hy).
Qed.

Lemma rotate_round_trip (s t : R) (vc : ViewContext R) :
  reachable vc -> s + t = 0 ->
  exists vc1 vc2,
    run_call (Rotate s) vc = Ok vc1 /\
    run_call (Rotate t) vc1 = Ok vc2 /\
    vc2 = vc.
Proof.
  intros Hr Hst. cbn [run_call]. unfold rotate. cbv zeta.
  cbn [dmul dneg ddiv of_int RScalar].
  apply apply_edit_round_trip; try assumption; try reflexivity;
    rewrite rotate_matrix_add; apply rotate_matrix_zero; nra.
Qed.

Lemma scale_round_trip (a b : R) (vc : ViewContext R) :
  reachable vc -> a * b = 1 ->
  exists vc1 vc2,
    run_call (Scale a a) vc = Ok vc1 /\
    run_call (Scale b b) vc1 = Ok vc2 /\
    vc2 = vc.
Proof.
  intros Hr Hab. cbn [run_call]. unfold scale. cbv zeta.
  cbn [ddiv of_int RScalar].
  assert (Ha : a <> 0) by (intros ->; lra).
  assert (Hb : b <> 0) by (intros ->; lra).
  assert (Hi : 1 / a * (1 / b) = 1).
  { replace (1 / a * (1 / b)) with (1 / (a * b)) by (field; auto).
    rewrite Hab. field. }
  apply apply_edit_round_trip; try assumption; try reflexivity;
    rewrite scale_matrix_mul; eval_R; repeat (f_equal; try lra).
Qed.

(** X9. In exact arithmetic, on every reachable state, [rotate(theta)]
    followed by [rotate(-theta)] returns and restores the whole state:
    the forward and the inverse transform and every other member. *)
Theorem rotate_then_rotate_back_restores (theta : R) (vc : ViewContext R) :
  reachable vc ->
  exists vc1 vc2,
    rotate theta vc = Ok vc1 /\
    rotate (- theta) vc1 = Ok vc2 /\
    vc2 = vc.
Proof.
  intros Hr.
  assert (Hs : theta + - theta = 0) by ring.
  exact (rotate_round_trip theta (- theta) vc Hr Hs).
Qed.

Lemma rotate_ten_and_back :
  exists vc : ViewContext R,
    reachable vc /\
    exists vc1 vc2,
      rotate 10 vc = Ok vc1 /\
      rotate (- 10) vc1 = Ok vc2 /\
      vc2 = vc.
Proof.
  destruct (new_ViewContext_ok 50 50 0 400 400 (1000 : R)) as (vc & E & _).
  assert (Hr : reachable vc)
    by exact (new_ViewContext_reachable 50 50 0 400 400 1000 vc E).
  exists vc. split; [exact Hr|].
  exact (rotate_then_rotate_back_restores 10 vc Hr).
Defined.

(** X10. In exact arithmetic, on every reachable state, two rotations in
    a row leave the forward and the inverse transform that the one rotation
    by the sum of the two angles leaves. *)
Theorem rotate_twice_is_rotate_by_sum (s t : R) (vc : ViewContext R) :
  reachable vc ->
  exists vc1 vc2 vc3,
    rotate s vc = Ok vc1 /\
    rotate t vc1 = Ok vc2 /\
    rotate (s + t) vc = Ok vc3 /\
    toDeviceCoordinates vc2 = toDeviceCoordinates vc3 /\
    toModelCoordinates vc2 = toModelCoordinates vc3.
Proof.
  intros Hr.
  destruct (reachable_pivots vc Hr) as (Hw & _).
  destruct (apply_edit_twice
              (rotate_matrix (s * (PI_macro / 180)))
              (rotate_matrix (- (s * (PI_macro / 180))))
              (rotate_matrix (t * (PI_macro / 180)))
              (rotate_matrix (- (t * (PI_macro / 180)))) vc Hr)
    as (vc1 & vc2 & E1 & E2 & Ed & Em & _);
    [reflexivity|reflexivity|reflexivity|reflexivity|].
  destruct (apply_edit_ok
              (rotate_matrix ((s + t) * (PI_macro / 180)))
              (rotate_matrix (- ((s + t) * (PI_macro / 180)))) vc Hw)
    as (vc3 & E3 & _ & Ed3 & Em3 & _); [reflexivity|reflexivity|].
  exists vc1, vc2, vc3.
  split; [exact E1|]. split; [exact E2|]. split; [exact E3|].
  rewrite Ed, Em, Ed3, Em3, !rotate_matrix_add.
  split; do 4 f_equal; ring.
Qed.

Lemma rotate_ten_twice_is_rotate_twenty :
  exists vc : ViewContext R,
    reachable vc /\
    exists vc1 vc2 vc3,
      rotate 10 vc = Ok vc1 /\
      rotate 10 vc1 = Ok vc2 /\
      rotate (10 + 10) vc = Ok vc3 /\
      toDeviceCoordinates vc2 = toDeviceCoordinates vc3 /\
      toModelCoordinates vc2 = toModelCoordinates vc3.
Proof.
  destruct (new_ViewContext_ok 50 50 0 400 400 (1000 : R)) as (vc & E & _).
  assert (Hr : reachable vc)
    by exact (new_ViewContext_reachable 50 50 0 400 400 1000 vc E).
  exists vc. split; [exact Hr|].
  exact (rotate_twice_is_rotate_by_sum 10 10 vc Hr).
Defined.

(** X11. In exact arithmetic, on every reachable state and for all
    factors, zero included, two scales in a row leave the forward transform
    that the one scale by the products of the factors leaves. *)
Theorem scale_twice_is_scale_by_product (a b c d : R) (vc : ViewContext R) :
  reachable vc ->
  exists vc1 vc2 vc3,
    scale a b vc = Ok vc1 /\
    scale c d vc1 = Ok vc2 /\
    scale (a * c) (b * d) vc = Ok vc3 /\
    toDeviceCoordinates vc2 = toDeviceCoordinates vc3.
Proof.
  intros Hr.
  destruct (reachable_pivots vc Hr) as (Hw & _).
  destruct (apply_edit_twice
              (scale_matrix a b) (scale_matrix (1 / a) (1 / b))
              (scale_matrix c d) (scale_matrix (1 / c) (1 / d)) vc Hr)
    as (vc1 & vc2 & E1 & E2 & Ed & _);
    [reflexivity|reflexivity|reflexivity|reflexivity|].
  destruct (apply_edit_ok
              (scale_matrix (a * c) (b * d))
              (scale_matrix (1 / (a * c)) (1 / (b * d))) vc Hw)
    as (vc3 & E3 & _ & Ed3 & _); [reflexivity|reflexivity|].
  exists vc1, vc2, vc3.
  split; [exact E1|]. split; [exact E2|]. split; [exact E3|].
  rewrite Ed, Ed3, scale_matrix_mul. reflexivity.
Qed.

Lemma scale_two_twice_is_scale_four :
  exists vc : ViewContext R,
    reachable vc /\
    exists vc1 vc2 vc3,
      scale 2 2 vc = Ok vc1 /\
      scale 2 2 vc1 = Ok vc2 /\
      scale (2 * 2) (2 * 2) vc = Ok vc3 /\
      toDeviceCoordinates vc2 = toDeviceCoordinates vc3.
Proof.
  destruct (new_ViewContext_ok 50 50 0 400 400 (1000 : R)) as (vc & E & _).
  assert (Hr : reachable vc)
    by exact (new_ViewContext_reachable 50 50 0 400 400 1000 vc E).
  exists vc. split; [exact Hr|].
  exact (scale_twice_is_scale_by_product 2 2 2 2 vc Hr).
Defined.

(** X12. In exact arithmetic, on every reachable state, [translate(x, y)]
    followed by [translate(-x, -y)] returns and restores the whole state,
    as long as [-x] and [-y] do not overflow. *)
Theorem translate_then_translate_back_restores
  (x y : Z) (vc : ViewContext R) :
  reachable vc -> negatable x -> negatable y ->
  exists vc1 vc2,
    translate x y vc = Ok vc1 /\
    translate (- x) (- y) vc1 = Ok vc2 /\
    vc2 = vc.
Proof.
  intros Hr Hx Hy. exact (translate_round_trip x y vc Hr Hx Hy).
Qed.

Lemma translate_left_then_right :
  exists vc : ViewContext R,
    reachable vc /\ negatable (-20) /\ negatable 0 /\
    exists vc1 vc2,
      translate (-20) 0 vc = Ok vc1 /\
      translate (- -20) (- 0) vc1 = Ok vc2 /\
      vc2 = vc.
Proof.
  destruct (new_ViewContext_ok 50 50 0 400 400 (1000 : R)) as (vc & E & _).
  assert (Hr : reachable vc)
    by exact (new_ViewContext_reachable 50 50 0 400 400 1000 vc E).
  assert (Hx : negatable (-20)) by (unfold negatable, int_min, int_max; lia).
  assert (Hy : negatable 0) by (unfold negatable, int_min, int_max; lia).
  exists vc. split; [exact Hr|]. split; [exact Hx|]. split; [exact Hy|].
  exact (translate_then_translate_back_restores (-20) 0 vc Hr Hx Hy).
Defined.

End RealEdits.

(** ** What the edits do to the device coordinates of a vertex batch *)

Section RealDevice.

Local Open Scope R_scope.

Lemma mmul_raw_assoc_batch (a b c : matrix R) :
  has_shape 4 4 a = true -> has_shape 4 4 b = true ->
  has_shape 4 3 c = true ->
  mmul_raw (mmul_raw a b) c = mmul_raw a (mmul_raw b c).
Proof.
  intros Ha Hb Hc. explicit44 Ha. explicit44 Hb. explicit43 Hc.
  eval_R. repeat (f_equal; try ring).
Qed.

(** X13. In exact arithmetic, on every reachable state, [translate(x, y)]
    multiplies the forward transform by the plain translation (the
    centering pair cancels), so that every vertex moves on the screen by
    [x] and [y] times its homogeneous coordinate, and keeps its depth. *)
Theorem translate_shifts_device_coordinates
  (x y : Z) (vc : ViewContext R) (b : matrix R) (i : nat) :
  reachable vc -> is_batch b = true -> (i < 3)%nat ->
  exists vc',
    translate x y vc = Ok vc' /\
    toDeviceCoordinates vc'
    = mmul_raw (translate_matrix x y) (toDeviceCoordinates vc) /\
    (mmul_raw (toDeviceCoordinates vc') b)@[0, i]
    = (mmul_raw (toDeviceCoordinates vc) b)@[0, i]
      + IZR x * (mmul_raw (toDeviceCoordinates vc) b)@[3, i] /\
    (mmul_raw (toDeviceCoordinates vc') b)@[1, i]
    = (mmul_raw (toDeviceCoordinates vc) b)@[1, i]
      + IZR y * (mmul_raw (toDeviceCoordinates vc) b)@[3, i] /\
    (mmul_raw (toDeviceCoordinates vc') b)@[2, i]
    = (mmul_raw (toDeviceCoordinates vc) b)@[2, i] /\
    (mmul_raw (toDeviceCoordinates vc') b)@[3, i]
    = (mmul_raw (toDeviceCoordinates vc) b)@[3, i].
Proof.
  intros Hr Hb Hi. unfold is_batch in Hb.
  destruct (reachable_pivots vc Hr) as (Hw & cx & cy & Efrom & Eto).
  destruct (wf_fields vc Hw) as (_ & Hd & _).
  destruct (apply_edit_ok (translate_matrix x y)
              (translate_matrix (int_neg x) (int_neg y)) vc Hw)
    as (vc' & E & _ & Ed & _); [reflexivity|reflexivity|].
  exists vc'. split; [exact E|].
  rewrite Efrom, Eto, translate_between_pivots in Ed.
  split; [exact Ed|]. rewrite Ed.
  rewrite mmul_raw_assoc_batch by shape44.
  destruct (mmul_4_3 _ _ Hd Hb) as [_ Hp].
  set (d := mmul_raw (toDeviceCoordinates vc) b) in *. clearbody d.
  explicit43 Hp.
  destruct i as [|[|[|i]]]; try lia; repeat split; eval_R; ring.
Qed.

Lemma translate_right_shifts_by_twenty :
  exists vc : ViewContext R,
    reachable vc /\
    is_batch ([[0; 100; 0]; [0; 0; 0]; [0; 0; 0]; [1; 1; 1]] : matrix R)
    = true /\
    (1 < 3)%nat /\
    exists vc',
      translate 20 0 vc = Ok vc' /\
      toDeviceCoordinates vc'
      = mmul_raw (translate_matrix 20 0) (toDeviceCoordinates vc) /\
      (mmul_raw (toDeviceCoordinates vc')
                [[0; 100; 0]; [0; 0; 0]; [0; 0; 0]; [1; 1; 1]])@[0, 1]
      = (mmul_raw (toDeviceCoordinates vc)
                  [[0; 100; 0]; [0; 0; 0]; [0; 0; 0]; [1; 1; 1]])@[0, 1]
        + IZR 20 * (mmul_raw (toDeviceCoordinates vc)
                      [[0; 100; 0]; [0; 0; 0]; [0; 0; 0]; [1; 1; 1]])@[3, 1] /\
      (mmul_raw (toDeviceCoordinates vc')
                [[0; 100; 0]; [0; 0; 0]; [0; 0; 0]; [1; 1; 1]])@[1, 1]
      = (mmul_raw (toDeviceCoordinates vc)
                  [[0; 100; 0]; [0; 0; 0]; [0; 0; 0]; [1; 1; 1]])@[1, 1]
        + IZR 0 * (mmul_raw (toDeviceCoordinates vc)
                     [[0; 100; 0]; [0; 0; 0]; [0; 0; 0]; [1; 1; 1]])@[3, 1] /\
      (mmul_raw (toDeviceCoordinates vc')
                [[0; 100; 0]; [0; 0; 0]; [0; 0; 0]; [1; 1; 1]])@[2, 1]
      = (mmul_raw (toDeviceCoordinates vc)
                  [[0; 100; 0]; [0; 0; 0]; [0; 0; 0]; [1; 1; 1]])@[2, 1] /\
      (mmul_raw (toDeviceCoordinates vc')
                [[0; 100; 0]; [0; 0; 0]; [0; 0; 0]; [1; 1; 1]])@[3, 1]
      = (mmul_raw (toDeviceCoordinates vc)
                  [[0; 100; 0]; [0; 0; 0]; [0; 0; 0]; [1; 1; 1]])@[3, 1].
Proof.
  destruct (new_ViewContext_ok 50 50 0 400 400 (1000 : R)) as (vc & E & _).
  assert (Hr : reachable vc)
    by exact (new_ViewContext_reachable 50 50 0 400 400 1000 vc E).
  assert (Hb : is_batch
                 ([[0; 100; 0]; [0; 0; 0]; [0; 0; 0]; [1; 1; 1]] : matrix R)
               = true) by reflexivity.
  assert (Hi : (1 < 3)%nat) by lia.
  exists vc. split; [exact Hr|]. split; [exact Hb|]. split; [exact Hi|].
  exact (translate_shifts_device_coordinates 20 0 vc _ 1%nat Hr Hb Hi).
Defined.

(** X14. In exact arithmetic, [scale] and [rotate] act about the screen
    center: after construction with the screen center (x, y) and any
    sequence of calls, a vertex that the forward transform sends to the
    screen center is still sent there after a [scale], whatever the
    factors, and after a [rotate], whatever the angle. *)
Theorem scale_and_rotate_fix_screen_center
  (x0 y0 z0 x y : Z) (zf0 : R) (cs : list (call R)) (vc : ViewContext R)
  (a b theta z : R) (d : matrix R) (i : nat) :
  (vc0 <- new_ViewContext x0 y0 z0 x y zf0 ;; run_calls cs vc0) = Ok vc ->
  is_batch d = true -> (i < 3)%nat ->
  column_is (mmul_raw (toDeviceCoordinates vc) d) i (IZR x) (IZR y) z 1 ->
  exists vc1 vc2,
    scale a b vc = Ok vc1 /\
    rotate theta vc = Ok vc2 /\
    column_is (mmul_raw (toDeviceCoordinates vc1) d) i (IZR x) (IZR y) z 1 /\
    column_is (mmul_raw (toDeviceCoordinates vc2) d) i (IZR x) (IZR y) z 1.
Proof.
  intros E Hb Hi Hc. unfold is_batch in Hb.
  destruct (new_ViewContext_ok x0 y0 z0 x y zf0)
    as (vc0 & E0 & Hw0 & _ & _ & _ & _ & _ & Efrom0 & Eto0 & _).
  rewrite E0 in E. cbn [bind] in E.
  destruct (run_calls_ok cs vc0 Hw0) as (vc' & E' & Hw & Eto & Efrom & _).
  assert (vc' = vc) by congruence. subst vc'.
  rewrite Efrom0 in Efrom. rewrite Eto0 in Eto.
  destruct (wf_fields vc Hw) as (_ & Hd & _).
  destruct (apply_edit_ok (scale_matrix a b)
              (scale_matrix (1 / a) (1 / b)) vc Hw)
    as (vc1 & E1 & _ & Ed1 & _); [reflexivity|reflexivity|].
  destruct (apply_edit_ok
              (rotate_matrix (theta * (PI_macro / 180)))
              (rotate_matrix (- (theta * (PI_macro / 180)))) vc Hw)
    as (vc2 & E2 & _ & Ed2 & _); [reflexivity|reflexivity|].
  exists vc1, vc2. split; [exact E1|]. split; [exact E2|].
  rewrite Ed1, Ed2, Efrom, Eto.
  rewrite !(mmul_raw_assoc_batch _ (toDeviceCoordinates vc) d) by shape44.
  destruct (mmul_4_3 _ _ Hd Hb) as [_ Hp].
  set (e := mmul_raw (toDeviceCoordinates vc) d) in *. clearbody e.
  explicit43 Hp. unfold column_is in *.
  destruct i as [|[|[|i]]]; try lia;
    cbv [mget nth] in Hc; destruct Hc as (-> & -> & -> & ->);
    repeat split; eval_R; ring.
Qed.

Lemma scale_and_rotate_fix_origin_image :
  exists (vc : ViewContext R) (z : R),
    (vc0 <- new_ViewContext 50 50 0 400 400 1000 ;;
     run_calls [Translate 0 0] vc0) = Ok vc /\
    is_batch ([[0; 100; 0]; [0; 0; 0]; [0; 0; 0]; [1; 1; 1]] : matrix R)
    = true /\
    (0 < 3)%nat /\
    column_is (mmul_raw (toDeviceCoordinates vc)
                 [[0; 100; 0]; [0; 0; 0]; [0; 0; 0]; [1; 1; 1]])
              0 (IZR 400) (IZR 400) z 1 /\
    exists vc1 vc2,
      scale 2 2 vc = Ok vc1 /\
      rotate 10 vc = Ok vc2 /\
      column_is (mmul_raw (toDeviceCoordinates vc1)
                   [[0; 100; 0]; [0; 0; 0]; [0; 0; 0]; [1; 1; 1]])
                0 (IZR 400) (IZR 400) z 1 /\
      column_is (mmul_raw (toDeviceCoordinates vc2)
                   [[0; 100; 0]; [0; 0; 0]; [0; 0; 0]; [1; 1; 1]])
                0 (IZR 400) (IZR 400) z 1.
Proof.
  destruct (new_ViewContext_ok 50 50 0 400 400 (1000 : R))
    as (vc0 & E0 & Hw0 & _ & Ed0 & _).
  destruct (apply_edit_ok (translate_matrix 0 0)
              (translate_matrix (int_neg 0) (int_neg 0)) vc0 Hw0)
    as (vc & E & _ & Ed & _ & _ & _ & _ & Eto & Efrom & _);
    [reflexivity|reflexivity|].
  assert (Er : (v <- new_ViewContext 50 50 0 400 400 (1000 : R) ;;
                run_calls [Translate 0 0] v) = Ok vc).
  { rewrite E0. cbn [bind run_calls run_call]. unfold translate. cbv zeta.
    rewrite E. reflexivity. }
  assert (Hb : is_batch
                 ([[0; 100; 0]; [0; 0; 0]; [0; 0; 0]; [1; 1; 1]] : matrix R)
               = true) by reflexivity.
  assert (Hi : (0 < 3)%nat) by lia.
  assert (Hc : column_is (mmul_raw (toDeviceCoordinates vc)
                            [[0; 100; 0]; [0; 0; 0]; [0; 0; 0]; [1; 1; 1]])
                         0 (IZR 400) (IZR 400) 0 1).
  { destruct (new_ViewContext_ok 50 50 0 400 400 (1000 : R))
      as (vc0' & E0' & _ & _ & _ & _ & _ & _ & Efrom0 & Eto0 & _).
    assert (vc0' = vc0) by congruence. subst vc0'.
    rewrite Ed, Ed0, Efrom0, Eto0. unfold column_is.
    repeat split; eval_R; ring. }
  exists vc, 0. split; [exact Er|]. split; [exact Hb|]. split; [exact Hi|].
  split; [exact Hc|].
  exact (scale_and_rotate_fix_screen_center 50 50 0 400 400 1000
           [Translate 0 0] vc 2 2 10 0 _ 0%nat Er Hb Hi Hc).
Defined.

End RealDevice.

(** ** Horizontal orbits and the projection in exact arithmetic *)

Section RealOrbitAlgebra.

Local Open Scope R_scope.

(** X15. The matrix [hOrbit] builds is a rotation: the matrices of two
    angles multiply to the matrix of the sum of the angles, and the matrix
    of an angle and of its opposite to the identity. *)
Theorem hOrbit_matrix_is_rotation (s t : R) :
  mmul_raw (hOrbit_matrix s) (hOrbit_matrix t) = hOrbit_matrix (s + t) /\
  mmul_raw (hOrbit_matrix s) (hOrbit_matrix (- s)) = identity 4.
Proof.
  split.
  - eval_R. rewrite cos_plus, sin_plus. repeat (f_equal; try ring).
  - eval_R. rewrite cos_neg, sin_neg.
    pose proof (sin2_cos2 s) as E. unfold Rsqr in E.
    repeat (f_equal; try ring); ring_simplify; lra.
Qed.

(** X16. In exact arithmetic, when [hOrbitMatrix] is the rotation by the
    cumulative angle (as it is after construction and after every
    [hOrbit]), [hOrbit(d)] followed by [hOrbit(-d)] restores the whole
    state. *)
Theorem hOrbit_then_hOrbit_back_restores (degrees : R) (vc : ViewContext R) :
  hOrbitMatrix vc = hOrbit_matrix (hdeg vc) ->
  hOrbit (- degrees) (hOrbit degrees vc) = vc.
Proof.
  intros Hsync.
  destruct vc as [m d cb h v tto tfo p q z hd vd].
  cbn [hOrbitMatrix hdeg] in Hsync.
  cbv [hOrbit set_hdeg set_hOrbitMatrix toModelCoordinates toDeviceCoordinates
       changeBasisMatrix hOrbitMatrix vOrbitMatrix translateToOrigin
       translateFromOrigin p0 pref zf hdeg vdeg].
  match goal with
  | |- mkViewContext _ _ _ (hOrbit_matrix ?t) _ _ _ _ _ _ _ _ = _ =>
      assert (Et : t = hd) by (eval_R; ring); rewrite Et
  end.
  rewrite <- Hsync. reflexivity.
Qed.

Lemma hOrbit_thirty_and_back :
  exists vc : ViewContext R,
    new_ViewContext 50 50 0 400 400 1000 = Ok vc /\
    hOrbitMatrix vc = hOrbit_matrix (hdeg vc) /\
    hOrbit (- 30) (hOrbit 30 vc) = vc.
Proof.
  destruct (new_ViewContext_ok 50 50 0 400 400 (1000 : R)) as (vc & E & _).
  destruct (constructed_in_sync 50 50 0 400 400 1000 vc E) as (Hsync & _).
  exists vc. split; [exact E|]. split; [exact Hsync|].
  exact (hOrbit_then_hOrbit_back_restores 30 vc Hsync).
Defined.

(** X17. In exact arithmetic and with a positive field of view [zf],
    [project] never moves a vertex away from the axis of view: the x and
    the y it writes are no larger in absolute value than the ones it read,
    and a vertex at depth zero stays where it was. *)
Theorem project_never_enlarges
  (vc : ViewContext R) (a : matrix R) (i j : nat) :
  0 < zf vc -> is_batch a = true -> (i < 3)%nat -> (j < 2)%nat ->
  Rabs (project vc a)@[j, i] <= Rabs a@[j, i] /\
  (a@[2, i] = 0 -> (project vc a)@[j, i] = a@[j, i]).
Proof.
  intros Hz Hb Hi Hj. unfold is_batch in Hb. explicit43 Hb.
  assert (Hk : forall v w : R,
             Rabs (zf vc * v / (Rabs w + zf vc)) <= Rabs v /\
             (w = 0 -> zf vc * v / (Rabs w + zf vc) = v)).
  { intros v w. pose proof (Rabs_pos w) as Hw. split.
    - unfold Rdiv. rewrite !Rabs_mult.
      rewrite (Rabs_right (zf vc)) by lra.
      rewrite Rabs_inv. rewrite (Rabs_right (Rabs w + zf vc)) by lra.
      pose proof (Rabs_pos v) as Hv.
      assert (Hq : 0 < / (Rabs w + zf vc)) by (apply Rinv_0_lt_compat; lra).
      assert (Hle : zf vc * / (Rabs w + zf vc) <= 1).
      { apply (Rmult_le_reg_r (Rabs w + zf vc)); [lra|].
        rewrite Rmult_assoc, Rinv_l by lra. lra. }
      assert (Hge : 0 <= zf vc * / (Rabs w + zf vc))
        by (apply Rmult_le_pos; lra).
      replace (zf vc * Rabs v * / (Rabs w + zf vc))
        with (zf vc * / (Rabs w + zf vc) * Rabs v) by ring.
      rewrite <- (Rmult_1_l (Rabs v)) at 2.
      apply Rmult_le_compat_r; assumption.
    - intros ->. rewrite Rabs_R0. field. lra. }
  destruct i as [|[|[|i]]]; try lia; destruct j as [|[|j]]; try lia;
    apply Hk.
Qed.

Lemma project_never_enlarges_axis_triangle :
  exists vc : ViewContext R,
    0 < zf vc /\
    is_batch ([[0; 100; 0]; [0; 0; 0]; [0; 0; 0]; [1; 1; 1]] : matrix R)
    = true /\
    (1 < 3)%nat /\ (0 < 2)%nat /\
    Rabs (project vc [[0; 100; 0]; [0; 0; 0]; [0; 0; 0]; [1; 1; 1]])@[0, 1]
    <= Rabs ([[0; 100; 0]; [0; 0; 0]; [0; 0; 0]; [1; 1; 1]] : matrix R)@[0, 1]
    /\
    (([[0; 100; 0]; [0; 0; 0]; [0; 0; 0]; [1; 1; 1]] : matrix R)@[2, 1] = 0 ->
     (project vc [[0; 100; 0]; [0; 0; 0]; [0; 0; 0]; [1; 1; 1]])@[0, 1]
     = ([[0; 100; 0]; [0; 0; 0]; [0; 0; 0]; [1; 1; 1]] : matrix R)@[0, 1]).
Proof.
  destruct (new_ViewContext_ok 50 50 0 400 400 (1000 : R))
    as (vc & _ & _ & _ & _ & _ & _ & _ & _ & _ & _ & Ez & _).
  assert (Hz : 0 < zf vc) by (rewrite Ez; lra).
  assert (Hb : is_batch
                 ([[0; 100; 0]; [0; 0; 0]; [0; 0; 0]; [1; 1; 1]] : matrix R)
               = true) by reflexivity.
  assert (Hi : (1 < 3)%nat) by lia.
  assert (Hj : (0 < 2)%nat) by lia.
  exists vc. split; [exact Hz|]. split; [exact Hb|]. split; [exact Hi|].
  split; [exact Hj|].
  exact (project_never_enlarges vc _ 1%nat 0%nat Hz Hb Hi Hj).
Defined.

End RealOrbitAlgebra.

Section RealVerticalOrbit.

Local Open Scope R_scope.

(** X18. In exact arithmetic, in every state and for every angle,
    [vOrbit] returns and the matrix it leaves in [vOrbitMatrix] is not the
    identity: the two frames it conjugates the rotation with are mirror
    images of each other, so that no vertical orbit, and no orbit back,
    gives the view before the first one. *)
Theorem vOrbit_never_leaves_identity (degrees : R) (vc : ViewContext R) :
  exists vc',
    vOrbit degrees vc = Ok vc' /\ vOrbitMatrix vc' <> identity 4.
Proof.
  destruct (vOrbit_ok degrees vc) as (vc' & E & _ & Evm & _).
  exists vc'. split; [exact E|]. rewrite Evm. intros Heq.
  assert (H0 := f_equal (fun m : matrix R => m@[0, 0]) Heq).
  assert (H1 := f_equal (fun m : matrix R => m@[1, 1]) Heq).
  assert (H2 := f_equal (fun m : matrix R => m@[2, 2]) Heq).
  clear Heq Evm E.
  set (t := vdeg vc') in *. clearbody t.
  set (ax := orbit_axis vc) in *. clearbody ax.
  eval_R_in H0. eval_R_in H1. eval_R_in H2.
  assert (Hc : cos t = 1) by lra.
  rewrite Hc in H0, H2.
  match type of H0 with
  | ?l0 = _ =>
      match type of H2 with
      | ?l2 = _ => assert (Hs : l0 + l2 = 0) by (unfold Rdiv; ring)
      end
  end.
  lra.
Qed.

End RealVerticalOrbit.

(** ** The projection in binary64 with no field of view *)

Section Binary64Project.

Local Open Scope float_scope.

(** The quotient [project] computes when both the field of view and the
    depth are zero: a zero or a not-a-number over zero. *)
Lemma zero_over_zero_depth (v z : float) :
  PrimFloat.abs z = 0 -> (0 * v) / (PrimFloat.abs z + 0) = nan.
Proof.
  intros ->. change (0 + 0) with 0.
  apply Prim2SF_inj. rewrite div_spec, mul_spec.
  change (Prim2SF 0) with (S754_zero false).
  change (Prim2SF nan) with S754_nan.
  destruct (Prim2SF v) as [s|s| |s m e]; try destruct s; reflexivity.
Qed.

(** X19. In binary64, once the field of view [zf] is zero (which
    [adjustFOV] allows), [project] returns normally and writes a
    not-a-number into the x and the y of every vertex at depth zero. *)
Theorem project_without_field_of_view_writes_nan
  (vc : ViewContext float) (a : matrix float) (i j : nat) :
  zf vc = 0 -> is_batch a = true -> (i < 3)%nat -> (j < 2)%nat ->
  PrimFloat.abs a@[2, i] = 0 ->
  PrimFloat.is_nan (project vc a)@[j, i] = true.
Proof.
  intros Hz Hb Hi Hj Hd. unfold is_batch in Hb. explicit43 Hb.
  unfold project. rewrite Hz.
  destruct i as [|[|[|i]]]; try lia; destruct j as [|[|j]]; try lia;
    cbv [mget nth] in Hd;
    cbv [fold_left seq mset mget list_set nth nth_error
         dmul ddiv dadd dabs FloatScalar];
    rewrite (zero_over_zero_depth _ _ Hd); reflexivity.
Qed.

Lemma project_axis_triangle_without_field_of_view :
  zf (adjustFOV (-1000) main_vc) = 0 /\
  is_batch axis_triangle = true /\
  (1 < 3)%nat /\ (0 < 2)%nat /\
  PrimFloat.abs axis_triangle@[2, 1] = 0 /\
  PrimFloat.is_nan
    (project (adjustFOV (-1000) main_vc) axis_triangle)@[0, 1] = true.
Proof.
  assert (Hz : zf (adjustFOV (-1000) main_vc) = 0) by reflexivity.
  assert (Hb : is_batch axis_triangle = true) by reflexivity.
  assert (Hi : (1 < 3)%nat) by lia.
  assert (Hj : (0 < 2)%nat) by lia.
  assert (Hd : PrimFloat.abs axis_triangle@[2, 1] = 0) by reflexivity.
  split; [exact Hz|]. split; [exact Hb|]. split; [exact Hi|].
  split; [exact Hj|]. split; [exact Hd|].
  exact (project_without_field_of_view_writes_nan
           (adjustFOV (-1000) main_vc) axis_triangle 1%nat 0%nat
           Hz Hb Hi Hj Hd).
Defined.

End Binary64Project.

(** ** The event handler *)

Section HandlerInvariants.

Context {T : Type} `{Scalar T} `{Libm T}.

Variable orbitSensitivity : Z.
Variable orbitAmount : T.

(** A property of the pipeline that both orbits keep is kept by
    [mouseMove], which returns, and leaves the state of the mouse alone. *)
Lemma mouseMove_keeps (P : ViewContext T -> Prop) (x y : Z)
  (md : MyDrawing T) :
  (forall d vc, P vc -> P (hOrbit d vc)) ->
  (forall d vc, P vc -> exists vc', vOrbit d vc = Ok vc' /\ P vc') ->
  P (md_vc md) ->
  exists md',
    mouseMove orbitSensitivity orbitAmount x y md = Ok md' /\
    P (md_vc md') /\
    md_mouseState md' = md_mouseState md /\
    (md_mouseState md = RELEASED -> md' = md).
Proof.
  intros Hh Hv HP. unfold mouseMove.
  destruct md as [vc [|] mx my]; cbn [md_mouseState md_vc md_x0 md_y0] in *.
  - exists (mkMyDrawing vc RELEASED mx my). repeat split. exact HP.
  - cbv zeta.
    set (md1 := if Z.ltb orbitSensitivity (int_wrap (x - mx)) then _ else _).
    assert (H1 : P (md_vc md1) /\ md_mouseState md1 = CLICKED).
    { subst md1.
      destruct (Z.ltb orbitSensitivity (int_wrap (x - mx)));
        [|destruct (Z.ltb (int_wrap (x - mx)) (int_neg orbitSensitivity))];
        cbn [set_md_x0 set_md_vc md_vc md_mouseState]; split;
        try reflexivity; try apply Hh; exact HP. }
    clearbody md1. destruct H1 as [HP1 Hs1].
    destruct (Z.ltb orbitSensitivity (int_wrap (y - my)));
      [|destruct (Z.ltb (int_wrap (y - my)) (int_neg orbitSensitivity))].
    + destruct (Hv orbitAmount _ HP1) as (vc' & E & HP').
      rewrite E. cbn [bind]. eexists. split; [reflexivity|].
      cbn [set_md_y0 set_md_vc md_vc md_mouseState].
      split; [exact HP'|]. split; [exact Hs1|]. discriminate.
    + destruct (Hv (dneg orbitAmount) _ HP1) as (vc' & E & HP').
      rewrite E. cbn [bind]. eexists. split; [reflexivity|].
      cbn [set_md_y0 set_md_vc md_vc md_mouseState].
      split; [exact HP'|]. split; [exact Hs1|]. discriminate.
    + exists md1. split; [reflexivity|].
      split; [exact HP1|]. split; [exact Hs1|]. discriminate.
Qed.

(** A property of the pipeline kept by both orbits and by the call of every
    key is kept by every event, and by every sequence of events. *)
Lemma handle_keeps (P : ViewContext T -> Prop) (e : event)
  (md : MyDrawing T) :
  (forall d vc, P vc -> P (hOrbit d vc)) ->
  (forall d vc, P vc -> exists vc', vOrbit d vc = Ok vc' /\ P vc') ->
  (forall k c vc, key_call k = Some c -> P vc ->
                  exists vc', run_call c vc = Ok vc' /\ P vc') ->
  P (md_vc md) ->
  exists md',
    handle orbitSensitivity orbitAmount e md = Ok md' /\ P (md_vc md').
Proof.
  intros Hh Hv Hk HP. destruct e as [k|x y| |x y]; cbn [handle].
  - unfold keyDown. destruct (key_call k) as [c|] eqn:Ek.
    + destruct (Hk k c (md_vc md) Ek HP) as (vc' & E & HP').
      rewrite E. cbn [bind]. eexists. split; [reflexivity|exact HP'].
    + exists md. split; [reflexivity|exact HP].
  - eexists. split; [reflexivity|exact HP].
  - eexists. split; [reflexivity|exact HP].
  - destruct (mouseMove_keeps P x y md Hh Hv HP) as (md' & E & HP' & _).
    exists md'. split; [exact E|exact HP'].
Qed.

Lemma handle_all_keeps (P : ViewContext T -> Prop) (es : list event)
  (md : MyDrawing T) :
  (forall d vc, P vc -> P (hOrbit d vc)) ->
  (forall d vc, P vc -> exists vc', vOrbit d vc = Ok vc' /\ P vc') ->
  (forall k c vc, key_call k = Some c -> P vc ->
                  exists vc', run_call c vc = Ok vc' /\ P vc') ->
  P (md_vc md) ->
  exists md',
    handle_all orbitSensitivity orbitAmount es md = Ok md' /\ P (md_vc md').
Proof.
  intros Hh Hv Hk. revert md. induction es as [|e es IH]; intros md HP.
  - exists md. split; [reflexivity|exact HP].
  - destruct (handle_keeps P e md Hh Hv Hk HP) as (md1 & E1 & HP1).
    destruct (IH md1 HP1) as (md2 & E2 & HP2).
    exists md2. cbn [handle_all]. rewrite E1. cbn [bind].
    split; [exact E2|exact HP2].
Qed.

(** X20. Whatever the sensitivity and the amount of an orbit, and in
    every state of the handler, [mouseMove] returns; it leaves the forward
    and the inverse transform, the field of view and the state of the
    mouse as they were, and while the button is released it changes
    nothing at all. *)
Theorem mouseMove_keeps_edit_pair (x y : Z) (md : MyDrawing T) :
  exists md',
    mouseMove orbitSensitivity orbitAmount x y md = Ok md' /\
    toDeviceCoordinates (md_vc md') = toDeviceCoordinates (md_vc md) /\
    toModelCoordinates (md_vc md') = toModelCoordinates (md_vc md) /\
    zf (md_vc md') = zf (md_vc md) /\
    md_mouseState md' = md_mouseState md /\
    (md_mouseState md = RELEASED -> md' = md).
Proof.
  destruct (mouseMove_keeps
              (fun vc =>
                 toDeviceCoordinates vc = toDeviceCoordinates (md_vc md) /\
                 toModelCoordinates vc = toModelCoordinates (md_vc md) /\
                 zf vc = zf (md_vc md)) x y md)
    as (md' & E & (Ed & Em & Ez) & Es & Hrel).
  - intros d vc HP. exact HP.
  - intros d vc (Ed & Em & Ez).
    destruct (vOrbit_ok d vc)
      as (vc' & E & _ & _ & Em' & Ed' & _ & _ & _ & _ & _ & _ & Ez' & _).
    exists vc'. split; [exact E|]. repeat split; congruence.
  - repeat split.
  - exists md'. repeat split; assumption.
Qed.

(** X21. Whatever the arguments of the constructor and whatever the
    events that follow, the handler returns from every one of them: no key
    and no move of the mouse makes the pipeline fail, and none changes the
    eye, the eye frame or the centering pair. *)
Theorem events_return_and_keep_eye_frame
  (x0 y0 z0 x y : Z) (zf0 : T) (es : list event) :
  exists vc0 md,
    new_ViewContext x0 y0 z0 x y zf0 = Ok vc0 /\
    handle_all orbitSensitivity orbitAmount es (new_MyDrawing vc0) = Ok md /\
    wf (md_vc md) = true /\
    p0 (md_vc md) = p0 vc0 /\
    changeBasisMatrix (md_vc md) = changeBasisMatrix vc0 /\
    translateFromOrigin (md_vc md) = centering (of_int x) (of_int y) /\
    translateToOrigin (md_vc md)
    = centering (dneg (of_int x)) (dneg (of_int y)).
Proof.
  destruct (new_ViewContext_ok x0 y0 z0 x y zf0)
    as (vc0 & E0 & Hw0 & _ & _ & _ & _ & _ & Efrom & Eto & _).
  set (P := fun vc : ViewContext T =>
              wf vc = true /\ p0 vc = p0 vc0 /\
              changeBasisMatrix vc = changeBasisMatrix vc0 /\
              translateFromOrigin vc = translateFromOrigin vc0 /\
              translateToOrigin vc = translateToOrigin vc0).
  assert (Hcall : forall c vc, P vc ->
                    exists vc', run_call c vc = Ok vc' /\ P vc').
  { intros c vc (Hw & Ep & Ecb & Ef & Et).
    destruct (run_call_ok c vc Hw) as (vc' & E & Hw' & Et' & Ef' & Ecb' & Ep').
    exists vc'. split; [exact E|]. unfold P. repeat split; congruence. }
  destruct (handle_all_keeps P es (new_MyDrawing vc0))
    as (md & E & Hw & Ep & Ecb & Ef & Et).
  - intros d vc HP. destruct (Hcall (HOrbit d) vc HP) as (vc' & E & HP').
    cbn [run_call] in E. injection E as <-. exact HP'.
  - intros d vc HP. exact (Hcall (VOrbit d) vc HP).
  - intros k c vc _ HP. exact (Hcall c vc HP).
  - unfold P. cbn [new_MyDrawing md_vc]. repeat split. exact Hw0.
  - exists vc0, md. split; [exact E0|]. split; [exact E|].
    repeat split; congruence.
Qed.

End HandlerInvariants.

Section RealHandler.

Local Open Scope R_scope.

(** The calls the keys make are covered by the exact reading. *)
Lemma key_call_defined (k : Z) (c : call R) :
  key_call k = Some c -> call_defined c.
Proof.
  unfold key_call. intros E.
  repeat match type of E with
         | match ?z with _ => _ end = _ => destruct z; try discriminate E
         end;
    injection E as <-; cbn [call_defined];
    try exact I;
    try (split; unfold negatable, int_min, int_max; lia);
    cbn [of_int ddiv RScalar]; split; lra.
Qed.

(** X22. In exact arithmetic, whatever the events since construction
    with the screen center (x, y), the handler has returned from every one
    of them and the product of the inverse and the forward transform is the
    centering translation. *)
Theorem events_keep_undo_pair
  (orbitSensitivity : Z) (orbitAmount : R)
  (x0 y0 z0 x y : Z) (zf0 : R) (es : list event) :
  exists vc0 md,
    new_ViewContext x0 y0 z0 x y zf0 = Ok vc0 /\
    handle_all orbitSensitivity orbitAmount es (new_MyDrawing vc0) = Ok md /\
    mmul (toModelCoordinates (md_vc md)) (toDeviceCoordinates (md_vc md))
    = Ok (centering (IZR x) (IZR y)).
Proof.
  destruct (new_ViewContext_undo_inv x0 y0 z0 x y zf0) as (vc0 & E0 & Hinv0).
  destruct (handle_all_keeps orbitSensitivity orbitAmount
              (undo_inv (IZR x) (IZR y)) es (new_MyDrawing vc0))
    as (md & E & Hw & _ & _ & Hp).
  - intros d vc HP.
    destruct (run_call_undo_inv (HOrbit d) (IZR x) (IZR y) vc I HP)
      as (vc' & Ec & HP').
    cbn [run_call] in Ec. injection Ec as <-. exact HP'.
  - intros d vc HP.
    exact (run_call_undo_inv (VOrbit d) (IZR x) (IZR y) vc I HP).
  - intros k c vc Ek HP.
    exact (run_call_undo_inv c (IZR x) (IZR y) vc (key_call_defined k c Ek) HP).
  - exact Hinv0.
  - exists vc0, md. split; [exact E0|]. split; [exact E|].
    destruct (wf_fields _ Hw) as (Hm & Hd & _).
    destruct (mmul_4_4 _ _ Hm Hd) as [Em _].
    rewrite Em, Hp. reflexivity.
Qed.

End RealHandler.

Section RealKeys.

Local Open Scope R_scope.

(** Two keys whose calls cancel restore the state of the handler. *)
Lemma keyDown_round_trip (k1 k2 : Z) (c1 c2 : call R) (md : MyDrawing R) :
  key_call k1 = Some c1 -> key_call k2 = Some c2 ->
  (exists vc1 vc2,
     run_call c1 (md_vc md) = Ok vc1 /\
     run_call c2 vc1 = Ok vc2 /\
     vc2 = md_vc md) ->
  exists md1 md2,
    keyDown k1 md = Ok md1 /\ keyDown k2 md1 = Ok md2 /\ md2 = md.
Proof.
  intros E1 E2 (vc1 & vc2 & R1 & R2 & ->).
  exists (set_md_vc vc1 md), md.
  unfold keyDown. rewrite E1, E2, R1. cbn [bind set_md_vc md_vc].
  rewrite R2. cbn [bind]. destruct md; repeat split.
Qed.

(** X23. In exact arithmetic, in every state of the handler whose
    pipeline is reachable, a key followed by its opposite (left and right,
    up and down, [=] and [-], [,] and [.], in either order) restores the
    whole state of the handler. *)
Theorem opposite_keys_restore (k1 k2 : Z) (md : MyDrawing R) :
  reachable (md_vc md) -> opposite_keys k1 k2 ->
  exists md1 md2,
    keyDown k1 md = Ok md1 /\ keyDown k2 md1 = Ok md2 /\ md2 = md.
Proof.
  intros Hr Hk. unfold opposite_keys in Hk. cbn [In] in Hk.
  assert (H20 : negatable 20) by (unfold negatable, int_min, int_max; lia).
  assert (H20' : negatable (-20))
    by (unfold negatable, int_min, int_max; lia).
  assert (H0 : negatable 0) by (unfold negatable, int_min, int_max; lia).
  destruct Hk as [E|[E|[E|[E|[E|[E|[E|[E|[]]]]]]]]];
    injection E as <- <-;
    (eapply keyDown_round_trip; [reflexivity|reflexivity|]).
  - exact (translate_round_trip (-20) 0 _ Hr H20' H0).
  - exact (translate_round_trip 20 0 _ Hr H20 H0).
  - exact (translate_round_trip 0 (-20) _ Hr H0 H20').
  - exact (translate_round_trip 0 20 _ Hr H0 H20).
  - apply scale_round_trip; [exact Hr|].
    cbn [of_int ddiv RScalar]. lra.
  - apply scale_round_trip; [exact Hr|].
    cbn [of_int ddiv RScalar]. lra.
  - apply rotate_round_trip; [exact Hr|].
    cbn [of_int RScalar]. lra.
  - apply rotate_round_trip; [exact Hr|].
    cbn [of_int RScalar]. lra.
Qed.

Lemma left_then_right_restores :
  exists vc : ViewContext R,
    reachable (md_vc (new_MyDrawing vc)) /\
    opposite_keys 65361 65363 /\
    exists md1 md2,
      keyDown 65361 (new_MyDrawing vc) = Ok md1 /\
      keyDown 65363 md1 = Ok md2 /\
      md2 = new_MyDrawing vc.
Proof.
  destruct (new_ViewContext_ok 50 50 0 400 400 (1000 : R)) as (vc & E & _).
  assert (Hr : reachable (md_vc (new_MyDrawing vc)))
    by exact (new_ViewContext_reachable 50 50 0 400 400 1000 vc E).
  assert (Hk : opposite_keys 65361 65363) by (left; reflexivity).
  exists vc. split; [exact Hr|]. split; [exact Hk|].
  exact (opposite_keys_restore 65361 65363 (new_MyDrawing vc) Hr Hk).
Defined.

End RealKeys.
